(** * Monthly sales forecasting service: the [/predict] route of [flask_app.py]

    A shallow embedding of [predict_sales] and the properties of its
    forecast bundle.  The route parses [months_ahead], reads the monthly
    aggregates, builds the trend and cyclic features, fits a scaler and a
    linear regression, projects [months_ahead] months forward and renders
    a JSON body.

    The numeric work is done by numpy, pandas and scikit-learn.  Their
    functions are the fields of the class [Runtime]; every call that can
    raise in Python returns a sum here ([inl] carries [str(e)]).  The
    control flow, the loop state, the objects that hold fitted parameters
    and the JSON bodies are modelled in full. *)

From Stdlib Require Import ZArith List String Ascii Bool Lia Sorted QArith Qabs.
Import ListNotations.
Open Scope string_scope.
Open Scope Z_scope.
Open Scope list_scope.

(** ** Python values and exceptions *)

(** [str(e)] of a raised exception. *)
Definition exn := string.

(** ** The runtime the route runs on *)

Class Runtime := {
  (** float64 *)
  R : Type;
  (** one cell of the frame returned by [pd.read_sql_query] *)
  cell : Type;
  (** [pd.Timestamp] *)
  timestamp : Type;
  (** the fitted attributes of a [StandardScaler] *)
  scaler_params : Type;
  (** the fitted attributes of a [LinearRegression] *)
  lr_model : Type;

  (** [int(s)] for a [str] *)
  py_int : string -> exn + Z;
  (** [Series.astype(int)] and [Series.astype(float)], per cell *)
  astype_int : cell -> exn + Z;
  astype_float : cell -> exn + R;
  (** int to float64, and [int(x)] for a float64 *)
  of_int : Z -> R;
  float_to_int : R -> exn + Z;
  fmul : R -> R -> R;
  fdiv : R -> R -> R;
  np_pi : R;
  np_sin : R -> R;
  np_cos : R -> R;
  (** [round(x, ndigits)] *)
  py_round : R -> Z -> R;

  sk_scaler_fit : list (list R) -> exn + scaler_params;
  sk_scaler_transform : scaler_params -> list (list R) -> exn + list (list R);
  sk_lr_fit : list (list R) -> list R -> exn + lr_model;
  sk_lr_predict : lr_model -> list (list R) -> exn + list R;
  mean_squared_error : list R -> list R -> exn + R;
  mean_absolute_percentage_error : list R -> list R -> exn + R;

  (** [pd.Timestamp(year=, month=, day=)] and [Timestamp.strftime] *)
  pd_Timestamp : Z -> Z -> Z -> exn + timestamp;
  strftime : timestamp -> string -> string
}.

(** ** Calendar text, as [strftime] prints it for four-digit years *)

Definition digit (n : Z) : ascii := ascii_of_nat (48 + Z.to_nat (n mod 10)).

Definition two_digits (n : Z) : string :=
  String (digit (n / 10)) (String (digit n) EmptyString).

Definition four_digits (n : Z) : string :=
  String (digit (n / 1000)) (String (digit (n / 100)) (two_digits n)).

Definition iso_date (y m d : Z) : string :=
  (four_digits y ++ "-" ++ two_digits m ++ "-" ++ two_digits d)%string.

Definition month_names : list string :=
  ["January"; "February"; "March"; "April"; "May"; "June"; "July";
   "August"; "September"; "October"; "November"; "December"].

Definition month_name_of (m : Z) : string :=
  nth (Z.to_nat (m - 1)) month_names EmptyString.

(** ** Calendar arithmetic used to state the properties *)

(** Months counted from year 0: two points are [k] months apart when their
    ordinals differ by [k]. *)
Definition month_ordinal (ym : Z * Z) : Z := 12 * fst ym + snd ym.

Definition valid_month (m : Z) : Prop := 1 <= m <= 12.



(** The (year, month) that lies [k] months after [ym]. *)
Definition months_after (k : Z) (ym : Z * Z) : Z * Z :=
  let o := month_ordinal ym - 1 + k in (o / 12, o mod 12 + 1).

Section Engine.

Context `{RT : Runtime}.

(** ** JSON-like values: what [jsonify] receives *)

#[warnings="-register-all"]
Inductive value : Type :=
| VInt (z : Z)
| VFloat (x : R)
| VStr (s : string)
| VList (l : list value)
| VDict (d : list (string * value)).

(** A Flask response: the jsonified body and the status code. *)
Definition response : Type := value * Z.

Fixpoint assoc (k : string) (d : list (string * value)) : option value :=
  match d with
  | [] => None
  | (k', v) :: d' => if String.eqb k k' then Some v else assoc k d'
  end.

(** [body[k]], or nothing when the body is no dict or has no such key. *)
Definition dict_get (k : string) (v : value) : option value :=
  match v with
  | VDict d => assoc k d
  | _ => None
  end.

Definition dict_keys (v : value) : list string :=
  match v with
  | VDict d => map fst d
  | _ => []
  end.

(** ** Request, database rows, frame *)

Record request := { args : list (string * string) }.

(** [request.args.get(key)]: the first value of the key. *)
Fixpoint args_get (a : list (string * string)) (key : string) : option string :=
  match a with
  | [] => None
  | (k, v) :: a' => if String.eqb key k then Some v else args_get a' key
  end.

(** One row of the query result: [year], [month], [total_sales] as the
    driver delivers them. *)
Record raw_row := { raw_year : cell; raw_month : cell; raw_total : cell }.

(** A row after the three [astype] conversions: the historical point. *)
Record hist_point := { year : Z; month : Z; total_sales : R }.

(** What connecting and running the query gives: the rows, or the
    exception of [create_engine], [connect] or [read_sql_query]. *)
Definition database : Type := exn + list raw_row.

(** ** State: the two fitted objects, the calls made, standard output *)

Definition matrix : Type := list (list R).

(** The calls on the database, the scaler and the regression, with their
    arguments.  The route appends each call to [trace] when it makes it
    and never reads the trace: it is there for the properties that say
    what was or was not called. *)
Inductive event : Type :=
| EvReadSql
| EvScalerFit (X : matrix)
| EvScalerTransform (p : scaler_params) (X : matrix)
| EvLrFit (X : matrix) (y : list R)
| EvLrPredict (m : lr_model) (X : matrix).

Record state := {
  scaler_X : option scaler_params;
  model : option lr_model;
  trace : list event;
  stdout : list string
}.

Definition set_scaler (p : option scaler_params) (s : state) : state :=
  {| scaler_X := p; model := model s; trace := trace s; stdout := stdout s |}.

Definition set_model (m : option lr_model) (s : state) : state :=
  {| scaler_X := scaler_X s; model := m; trace := trace s; stdout := stdout s |}.

Definition add_event (e : event) (s : state) : state :=
  {| scaler_X := scaler_X s; model := model s;
     trace := trace s ++ [e]; stdout := stdout s |}.

Definition add_stdout (line : string) (s : state) : state :=
  {| scaler_X := scaler_X s; model := model s;
     trace := trace s; stdout := stdout s ++ [line] |}.

(** ** The monad: state that survives a raised exception *)

Definition M (A : Type) : Type := state -> (exn + A) * state.

Definition ret {A} (a : A) : M A := fun s => (inr a, s).

Definition raise {A} (e : exn) : M A := fun s => (inl e, s).

Definition bind {A B} (m : M A) (f : A -> M B) : M B :=
  fun s => match m s with
           | (inr a, s') => f a s'
           | (inl e, s') => (inl e, s')
           end.

Definition lift {A} (r : exn + A) : M A :=
  fun s => (r, s).

Definition get_state : M state := fun s => (inr s, s).

Definition modify (f : state -> state) : M unit := fun s => (inr tt, f s).

End Engine.

Declare Scope py_scope.
Delimit Scope py_scope with py.
Notation "x <- m ;; k" := (bind m (fun x => k))
  (at level 61, m at next level, right associativity) : py_scope.
Notation "m ;;; k" := (bind m (fun _ => k))
  (at level 61, right associativity) : py_scope.

Open Scope py_scope.

Section Route.

Context `{RT : Runtime}.

(** ** Python helpers *)

(** [range(a, b)] *)
Definition py_range (a b : Z) : list Z :=
  map (fun k => a + Z.of_nat k) (seq 0 (Z.to_nat (b - a))).

(** [len(x)] *)
Definition len {A} (l : list A) : Z := Z.of_nat (List.length l).

(** A [for] loop whose body updates the loop variables [acc]. *)
Fixpoint for_each {A S} (xs : list A) (body : A -> S -> M S) (acc : S) : M S :=
  match xs with
  | [] => ret acc
  | x :: xs' => acc' <- body x acc ;; for_each xs' body acc'
  end.

(** Apply a raising function to every element, left to right. *)
Fixpoint map_raising {A B} (f : A -> exn + B) (l : list A) : exn + list B :=
  match l with
  | [] => inr []
  | a :: l' =>
      match f a with
      | inl e => inl e
      | inr b =>
          match map_raising f l' with
          | inl e => inl e
          | inr bs => inr (b :: bs)
          end
      end
  end.

(** [s.iloc[-1]] *)
Definition iloc_last {A} (l : list A) : M A :=
  match rev l with
  | [] => raise "single positional indexer is out-of-bounds"
  | a :: _ => ret a
  end.

(** [a[0]] *)
Definition index0 {A} (l : list A) : M A :=
  match l with
  | [] => raise "index 0 is out of bounds for axis 0 with size 0"
  | a :: _ => ret a
  end.

(** ** The objects of the route *)

(** [engine.connect()] and [pd.read_sql_query(query, connection)] *)
Definition read_sql_query (db : database) : M (list raw_row) :=
  modify (add_event EvReadSql) ;;; lift db.

(** [StandardScaler()] *)
Definition StandardScaler : M unit := modify (set_scaler None).

(** [scaler_X.fit_transform(X)] *)
Definition scaler_fit_transform (X : matrix) : M matrix :=
  modify (add_event (EvScalerFit X)) ;;;
  p <- lift (sk_scaler_fit X) ;;
  modify (set_scaler (Some p)) ;;;
  lift (sk_scaler_transform p X).

(** [scaler_X.transform(X)] *)
Definition scaler_transform (X : matrix) : M matrix :=
  s <- get_state ;;
  match scaler_X s with
  | None => raise "This StandardScaler instance is not fitted yet."
  | Some p =>
      modify (add_event (EvScalerTransform p X)) ;;;
      lift (sk_scaler_transform p X)
  end.

(** [LinearRegression()] *)
Definition LinearRegression : M unit := modify (set_model None).

(** [model.fit(X, y)] *)
Definition model_fit (X : matrix) (y : list R) : M unit :=
  modify (add_event (EvLrFit X y)) ;;;
  m <- lift (sk_lr_fit X y) ;;
  modify (set_model (Some m)).

(** [model.predict(X)] *)
Definition model_predict (X : matrix) : M (list R) :=
  s <- get_state ;;
  match model s with
  | None => raise "This LinearRegression instance is not fitted yet."
  | Some m =>
      modify (add_event (EvLrPredict m X)) ;;;
      lift (sk_lr_predict m X)
  end.

(** ** Feature engineering *)

(** The three [astype] lines: each column is converted as a whole, in the
    order year, month, total_sales. *)
Definition astype_frame (df : list raw_row) : exn + list hist_point :=
  match map_raising astype_int (map raw_year df) with
  | inl e => inl e
  | inr years =>
      match map_raising astype_int (map raw_month df) with
      | inl e => inl e
      | inr months =>
          match map_raising astype_float (map raw_total df) with
          | inl e => inl e
          | inr totals =>
              inr (map (fun '(y, (m, t)) =>
                          {| year := y; month := m; total_sales := t |})
                       (combine years (combine months totals)))
          end
      end
  end.

(** [np.sin(2 * np.pi * month / 12)] and [np.cos(2 * np.pi * month / 12)] *)
Definition month_angle (m : Z) : R :=
  fdiv (fmul (fmul (of_int 2) np_pi) (of_int m)) (of_int 12).

Definition month_sin (m : Z) : R := np_sin (month_angle m).
Definition month_cos (m : Z) : R := np_cos (month_angle m).

(** [df['time_index'] = range(1, len(df) + 1)] *)
Definition time_index_column (df : list hist_point) : list Z :=
  py_range 1 (len df + 1).

(** One row of [df[['time_index', 'month_sin', 'month_cos']].values] *)
Definition feature_row (time_index m : Z) : list R :=
  [of_int time_index; month_sin m; month_cos m].

(** [X]: the feature matrix of the history. *)
Definition feature_matrix (df : list hist_point) : matrix :=
  map (fun '(t, p) => feature_row t (month p))
      (combine (time_index_column df) df).

(** ** The projection loop *)

Definition forecast_dict (y m : Z) (name : string) (sales : R)
    (date : string) : value :=
  VDict [("year", VInt y); ("month", VInt m); ("month_name", VStr name);
         ("predicted_sales", VFloat sales); ("date", VStr date)].

(** The loop variables: [current_year], [current_month], [predictions]. *)
Definition loop_vars : Type := Z * Z * list value.

(** The body of [for i in range(1, months_ahead + 1)]; [n] is [len(df)]. *)
Definition projection_step (n : Z) (i : Z) (vars : loop_vars) : M loop_vars :=
  let '(current_year, current_month, predictions) := vars in
  let current_month := current_month + 1 in
  let '(current_month, current_year) :=
    if current_month >? 12 then (1, current_year + 1)
    else (current_month, current_year) in
  let time_index := n + i in
  let X_pred := [feature_row time_index current_month] in
  X_pred_scaled <- scaler_transform X_pred ;;
  y_hat <- model_predict X_pred_scaled ;;
  predicted_sales <- index0 y_hat ;;
  t1 <- lift (pd_Timestamp current_year current_month 1) ;;
  let month_name := strftime t1 "%B" in
  t2 <- lift (pd_Timestamp current_year current_month 1) ;;
  let date_str := strftime t2 "%Y-%m-%d" in
  ret (current_year, current_month,
       predictions ++ [forecast_dict current_year current_month month_name
                         (py_round predicted_sales 2) date_str]).

(** ** Echo of the history *)

Definition history_dict (y m : Z) (name : string) (sales : R)
    (date : string) : value :=
  VDict [("year", VInt y); ("month", VInt m); ("month_name", VStr name);
         ("total_sales", VFloat sales); ("date", VStr date)].

(** The body of [for _, row in df.iterrows()].  [iterrows] hands each row
    out as one float64 Series, so [row['year']] and [row['month']] are
    floats that [int] converts back. *)
Definition history_step (row : hist_point) (historical_data : list value)
    : M (list value) :=
  y <- lift (float_to_int (of_int (year row))) ;;
  m <- lift (float_to_int (of_int (month row))) ;;
  t1 <- lift (pd_Timestamp y m 1) ;;
  let date_str := strftime t1 "%Y-%m-%d" in
  t2 <- lift (pd_Timestamp y m 1) ;;
  ret (historical_data ++
       [history_dict y m (strftime t2 "%B") (total_sales row) date_str]).

(** ** The route *)

Definition error_body (msg : string) : value := VDict [("error", VStr msg)].

Definition model_info (n : Z) (mse mape : R) : value :=
  VDict [("type", VStr "Linear Regression");
         ("training_data_points", VInt n);
         ("mse", VFloat (py_round mse 2));
         ("mape", VFloat (py_round mape 2))].

(** [int(request.args.get('months_ahead', 1))] *)
Definition parse_months_ahead (req : request) : exn + Z :=
  match args_get (args req) "months_ahead" with
  | Some raw => py_int raw
  | None => inr 1
  end.

(** The [try] block of [predict_sales] from the time features on: scale,
    fit, measure, project, echo, assemble.  [df] is the frame after the
    three [astype] lines. *)
Definition fit_and_project (months_ahead : Z) (df : list hist_point)
    : M response :=
  let X := feature_matrix df in
  let y := map total_sales df in
  StandardScaler ;;;
  X_scaled <- scaler_fit_transform X ;;
  LinearRegression ;;;
  model_fit X_scaled y ;;;
  y_pred <- model_predict X_scaled ;;
  mse <- lift (mean_squared_error y y_pred) ;;
  mape0 <- lift (mean_absolute_percentage_error y y_pred) ;;
  let mape := fmul mape0 (of_int 100) in
  last_year <- iloc_last (map year df) ;;
  last_month <- iloc_last (map month df) ;;
  vars <- for_each (py_range 1 (months_ahead + 1))
            (projection_step (len df)) (last_year, last_month, []) ;;
  let '(_, _, predictions) := vars in
  historical_data <- for_each df history_step [] ;;
  ret (VDict [("predictions", VList predictions);
              ("historical_data", VList historical_data);
              ("model_info", model_info (len df) mse mape)], 200).

(** The [try] block of [predict_sales]: the parameter, the query, the two
    guards, the conversions, then the forecast. *)
Definition predict_sales_try (req : request) (db : database) : M response :=
  months_ahead <- lift (parse_months_ahead req) ;;
  if (months_ahead <? 1) || (months_ahead >? 12) then
    ret (error_body "months_ahead must be between 1 and 12", 400)
  else
    raw <- read_sql_query db ;;
    if len raw <? 6 then
      ret (error_body "Not enough data for prediction", 400)
    else
      df <- lift (astype_frame raw) ;;
      fit_and_project months_ahead df.

(** [predict_sales]: the [try] block under its [except Exception] handler,
    which prints the message and answers 500. *)
Definition predict_sales (req : request) (db : database)
    : state -> response * state :=
  fun s =>
    match predict_sales_try req db s with
    | (inr resp, s') => (resp, s')
    | (inl e, s') =>
        ((error_body e, 500),
         add_stdout ("Error in prediction: " ++ e)%string s')
    end.

(** [home] *)
Definition home : response := (VDict [("status", VStr "ML service is alive")], 200).

End Route.

(** ** Vocabulary of the properties *)

Section Specification.

Context `{RT : Runtime}.

(** [s] after the calls [evs]. *)
Definition with_trace (s : state) (evs : list event) : state :=
  {| scaler_X := scaler_X s; model := model s;
     trace := trace s ++ evs; stdout := stdout s |}.

(** The month the loop moves to from [ym]: increment, then the year
    transition. *)
Definition next_month (ym : Z * Z) : Z * Z :=
  let m := snd ym + 1 in
  if m >? 12 then (fst ym + 1, 1) else (fst ym, m).

(** The (year, month) of the last row of the frame. *)
Definition last_year_month (df : list hist_point) : Z * Z :=
  last (map (fun p => (year p, month p)) df) (0, 0).

(** The [k] months that follow [ym], in order. *)
Definition projected_months (ym : Z * Z) (k : nat) : list (Z * Z) :=
  map (fun j => months_after (Z.of_nat j) ym) (seq 1 k).

(** *** Reading the JSON body *)

Definition list_field (k : string) (body : value) : option (list value) :=
  match dict_get k body with
  | Some (VList l) => Some l
  | _ => None
  end.

Definition int_field (k : string) (v : value) : option Z :=
  match dict_get k v with
  | Some (VInt z) => Some z
  | _ => None
  end.

Definition float_field (k : string) (v : value) : option R :=
  match dict_get k v with
  | Some (VFloat x) => Some x
  | _ => None
  end.

Definition str_field (k : string) (v : value) : option string :=
  match dict_get k v with
  | Some (VStr x) => Some x
  | _ => None
  end.

(** The (year, month) an entry of [predictions] or [historical_data]
    carries. *)
Definition entry_year_month (v : value) : option (Z * Z) :=
  match int_field "year" v, int_field "month" v with
  | Some y, Some m => Some (y, m)
  | _, _ => None
  end.

(** [x] is the result of [round(_, ndigits)]. *)
Definition rounded_to (ndigits : Z) (x : R) : Prop :=
  exists raw, x = py_round raw ndigits.

(** *** What the scaler and the model were asked to do *)

Definition scaler_fits (evs : list event) : list matrix :=
  flat_map (fun e => match e with EvScalerFit X => [X] | _ => [] end) evs.

Definition scaler_transforms (evs : list event)
    : list (scaler_params * matrix) :=
  flat_map (fun e => match e with
                     | EvScalerTransform p X => [(p, X)]
                     | _ => []
                     end) evs.

(** The [time_index] entry of a one-row feature matrix. *)
Definition time_index_of (X : matrix) : option R :=
  match X with
  | [t :: _] => Some t
  | _ => None
  end.

(** *** One projection step and a whole projection, as relations *)

Inductive projects (p : scaler_params) (mdl : lr_model) (n : Z)
    : list Z -> Z * Z -> list value -> list event -> Prop :=
| projects_nil ym : projects p mdl n [] ym [] []
| projects_cons i steps ym xs ys y_hat t vs evs :
    sk_scaler_transform p
      [feature_row (n + i) (snd (next_month ym))] = inr xs ->
    sk_lr_predict mdl xs = inr ys ->
    hd_error ys = Some y_hat ->
    pd_Timestamp (fst (next_month ym)) (snd (next_month ym)) 1 = inr t ->
    projects p mdl n steps (next_month ym) vs evs ->
    projects p mdl n (i :: steps) ym
      (forecast_dict (fst (next_month ym)) (snd (next_month ym))
         (strftime t "%B") (py_round y_hat 2) (strftime t "%Y-%m-%d") :: vs)
      (EvScalerTransform p [feature_row (n + i) (snd (next_month ym))]
         :: EvLrPredict mdl xs :: evs).

(** [v] is the echo of [row]. *)
Definition echo_of (row : hist_point) (v : value) : Prop :=
  exists y m t,
    float_to_int (of_int (year row)) = inr y /\
    float_to_int (of_int (month row)) = inr m /\
    pd_Timestamp y m 1 = inr t /\
    v = history_dict y m (strftime t "%B") (total_sales row)
          (strftime t "%Y-%m-%d").

(** The echo of a historical point, with the calendar text written out. *)
Definition echo_entry (pt : hist_point) : value :=
  history_dict (year pt) (month pt) (month_name_of (month pt))
    (total_sales pt) (iso_date (year pt) (month pt) 1).

(** *** A run of the route that answers 200 *)

Inductive forecast_run (req : request) (db : database) (s : state)
    : value -> state -> Prop :=
| forecast_run_intro H raw df p Xs mdl y_pred mse mape0 preds evs hist :
    parse_months_ahead req = inr H ->
    1 <= H <= 12 ->
    db = inr raw ->
    6 <= len raw ->
    astype_frame raw = inr df ->
    sk_scaler_fit (feature_matrix df) = inr p ->
    sk_scaler_transform p (feature_matrix df) = inr Xs ->
    sk_lr_fit Xs (map total_sales df) = inr mdl ->
    sk_lr_predict mdl Xs = inr y_pred ->
    mean_squared_error (map total_sales df) y_pred = inr mse ->
    mean_absolute_percentage_error (map total_sales df) y_pred = inr mape0 ->
    projects p mdl (len df) (py_range 1 (H + 1)) (last_year_month df)
      preds evs ->
    Forall2 echo_of df hist ->
    forecast_run req db s
      (VDict [("predictions", VList preds);
              ("historical_data", VList hist);
              ("model_info",
               model_info (len df) mse (fmul mape0 (of_int 100)))])
      {| scaler_X := Some p; model := Some mdl;
         trace := trace s ++
                  EvReadSql :: EvScalerFit (feature_matrix df)
                    :: EvLrFit Xs (map total_sales df)
                    :: EvLrPredict mdl Xs :: evs;
         stdout := stdout s |}.

(** *** Two runs side by side *)

(** What the route sees of the database: the exception, or the number of
    rows and the outcome of the conversions. *)
Definition observed_series (db : database)
    : exn + (Z * (exn + list hist_point)) :=
  match db with
  | inl e => inl e
  | inr raw => inr (len raw, astype_frame raw)
  end.

Definition any_states (s1 s2 : state) : Prop := True.

Definition same_scaler (s1 s2 : state) : Prop := scaler_X s1 = scaler_X s2.

Definition same_objects (s1 s2 : state) : Prop :=
  scaler_X s1 = scaler_X s2 /\ model s1 = model s2.

(** From states related by [P], the two runs of [m] return the same value
    or raise the same exception, and when they return they end in states
    related by [Q]. *)
Definition rel_triple {A} (P : state -> state -> Prop) (m : M A)
    (Q : state -> state -> Prop) : Prop :=
  forall s1 s2, P s1 s2 ->
    fst (m s1) = fst (m s2) /\
    (forall a, fst (m s1) = inr a -> Q (snd (m s1)) (snd (m s2))).

(** *** What the properties ask of the runtime *)

(** [X] has [n] rows of three features. *)
Definition shape (n : nat) (X : matrix) : Prop :=
  List.length X = n /\ Forall (fun r => List.length r = 3%nat) X.

(** The library calls of the route do not raise on well-shaped input,
    years from [lo] to [hi] have timestamps, and integers up to 2^53
    survive the trip through float64. *)
Record runtime_total (lo hi : Z) : Prop := {
  scaler_fit_total : forall n X,
    shape (S n) X -> exists p, sk_scaler_fit X = inr p;
  scaler_transform_total : forall n0 X0 p n X,
    shape (S n0) X0 -> sk_scaler_fit X0 = inr p -> shape n X ->
    exists X', sk_scaler_transform p X = inr X' /\ shape n X';
  lr_fit_total : forall n X y,
    shape (S n) X -> List.length y = S n -> exists m, sk_lr_fit X y = inr m;
  lr_predict_total : forall n0 X0 y0 m n X,
    shape (S n0) X0 -> sk_lr_fit X0 y0 = inr m -> shape n X ->
    exists ys, sk_lr_predict m X = inr ys /\ List.length ys = n;
  mse_total : forall y y',
    y <> [] -> List.length y = List.length y' ->
    exists v, mean_squared_error y y' = inr v;
  mape_total : forall y y',
    y <> [] -> List.length y = List.length y' ->
    exists v, mean_absolute_percentage_error y y' = inr v;
  timestamp_total : forall y m,
    lo <= y <= hi -> 1 <= m <= 12 -> exists t, pd_Timestamp y m 1 = inr t;
  float_exact_range : - 2 ^ 53 <= lo /\ hi <= 2 ^ 53;
  float_int_exact : forall z,
    - 2 ^ 53 <= z <= 2 ^ 53 -> float_to_int (of_int z) = inr z
}.

(** [%B] and [%Y-%m-%d] print the month name and the ISO date of a
    timestamp with a four-digit year. *)
Definition strftime_calendar : Prop :=
  forall y m d t,
    1000 <= y <= 9999 -> pd_Timestamp y m d = inr t ->
    strftime t "%B" = month_name_of m /\
    strftime t "%Y-%m-%d" = iso_date y m d.

(** The history the data model describes: months 1 to 12, years the
    runtime has timestamps for, one year of room for the projection. *)
Definition well_formed_history (lo hi : Z) (df : list hist_point) : Prop :=
  Forall (fun p => lo <= year p < hi /\ valid_month (month p)) df.

End Specification.

(** ** The database engine: [get_db_engine] *)

(** [s[n:]] *)
Fixpoint drop (n : nat) (s : string) : string :=
  match n, s with
  | O, _ => s
  | S n', String _ s' => drop n' s'
  | S _, EmptyString => EmptyString
  end.

(** [s.startswith(p)] *)
Definition startswith (s p : string) : bool := String.prefix p s.

(** [s.replace(old, new, 1)]: the leftmost occurrence of [old] becomes
    [new]. *)
Fixpoint replace_first (old new s : string) : string :=
  if String.prefix old s then (new ++ drop (String.length old) s)%string
  else match s with
       | EmptyString => EmptyString
       | String c s' => String c (replace_first old new s')
       end.

(** The URL [get_db_engine] hands to [create_engine], from the value of
    the environment variable ([None] when it is unset).  An empty string
    is falsy and skips the test. *)
Definition database_url (DATABASE_URL : option string) : option string :=
  match DATABASE_URL with
  | Some url =>
      if negb (String.eqb url EmptyString) && startswith url "postgres://"
      then Some (replace_first "postgres://" "postgresql://" url)
      else Some url
  | None => None
  end.

Section Deployment.

Context `{RT : Runtime}.

(** sqlalchemy's engine, [create_engine(url, connect_args=...)], and what
    connecting and running the query of the route gives on an engine. *)
Variable engine : Type.
Variable create_engine : option string -> list (string * string) -> exn + engine.
Variable run_query : engine -> exn + list raw_row.

(** [get_db_engine] *)
Definition get_db_engine (DATABASE_URL : option string) : exn + engine :=
  create_engine (database_url DATABASE_URL) [("sslmode", "require")].

(** What [predict_sales] gets from [get_db_engine], [engine.connect] and
    [pd.read_sql_query] under a given environment. *)
Definition database_of (DATABASE_URL : option string) : database :=
  match get_db_engine DATABASE_URL with
  | inl e => inl e
  | inr eng => run_query eng
  end.

(** The route as deployed: [predict_sales] on the database the
    environment points to. *)
Definition predict_sales_deployed (DATABASE_URL : option string)
    (req : request) : state -> response * state :=
  predict_sales req (database_of DATABASE_URL).

End Deployment.

(** ** More vocabulary: conversions, traces, explicit months *)

Section Coverage.

Context `{RT : Runtime}.

(** The three cells of [r] convert to the three fields of [pt]. *)
Definition converts (r : raw_row) (pt : hist_point) : Prop :=
  astype_int (raw_year r) = inr (year pt) /\
  astype_int (raw_month r) = inr (month pt) /\
  astype_float (raw_total r) = inr (total_sales pt).

(** [e] is what [f] raises on the first element of [l] it fails on. *)
Definition first_failure {A B} (f : A -> exn + B) (l : list A) (e : exn)
    : Prop :=
  exists l1 a l2,
    l = l1 ++ a :: l2 /\
    Forall (fun x => exists b, f x = inr b) l1 /\
    f a = inl e.

Definition all_convert {A B} (f : A -> exn + B) (l : list A) : Prop :=
  Forall (fun x => exists b, f x = inr b) l.

(** A call the projection loop makes. *)
Definition loop_event (e : event) : bool :=
  match e with
  | EvScalerTransform _ _ | EvLrPredict _ _ => true
  | _ => false
  end.

(** The calls a request can leave in the trace: none, or the query, then
    the scaler fit, then the regression fit, then the prediction on the
    history followed by the calls of the loop. *)
Inductive run_trace : list event -> Prop :=
| run_trace_none : run_trace []
| run_trace_read : run_trace [EvReadSql]
| run_trace_scaler X : run_trace [EvReadSql; EvScalerFit X]
| run_trace_fit X Xs y :
    run_trace [EvReadSql; EvScalerFit X; EvLrFit Xs y]
| run_trace_full X Xs y mdl loop :
    forallb loop_event loop = true ->
    run_trace (EvReadSql :: EvScalerFit X :: EvLrFit Xs y
                 :: EvLrPredict mdl Xs :: loop).

(** The calls of a projection in pairs: a transform with the parameters
    [p], then a prediction by the model [mdl] on what that transform
    returned. *)
Inductive scaled_then_predicted (p : scaler_params) (mdl : lr_model)
    : list event -> Prop :=
| stp_nil : scaled_then_predicted p mdl []
| stp_cons X xs evs :
    sk_scaler_transform p X = inr xs ->
    scaled_then_predicted p mdl evs ->
    scaled_then_predicted p mdl
      (EvScalerTransform p X :: EvLrPredict mdl xs :: evs).

Definition is_read (e : event) : bool :=
  match e with EvReadSql => true | _ => false end.

Definition is_regression_fit (e : event) : bool :=
  match e with EvLrFit _ _ => true | _ => false end.

(** The month [j] steps after (y, m), for [j] up to 12, without division:
    at most one change of year. *)
Definition step_months (ym : Z * Z) (j : Z) : Z * Z :=
  if snd ym + j >? 12 then (fst ym + 1, snd ym + j - 12)
  else (fst ym, snd ym + j).

End Coverage.

(** ** A reference runtime over the rationals

    Exact rational arithmetic in place of float64: a standardising scaler,
    a least-squares line on the trend feature, calendar text for the
    years 1 to 9999.  It runs the route on concrete requests. *)

Module Reference.

Inductive ref_cell : Type :=
| CNull
| CNum (q : Q)
| CText (s : string).

Fixpoint digits_value (s : string) (acc : Z) : option Z :=
  match s with
  | EmptyString => Some acc
  | String c s' =>
      let n := Z.of_nat (nat_of_ascii c) in
      if (48 <=? n) && (n <=? 57) then digits_value s' (10 * acc + (n - 48))
      else None
  end.

Definition invalid_literal (s : string) : exn :=
  ("invalid literal for int() with base 10: '" ++ s ++ "'")%string.

(** Decimal text with an optional minus sign. *)
Definition ref_int (s : string) : exn + Z :=
  match s with
  | EmptyString => inl (invalid_literal s)
  | String "-" EmptyString => inl (invalid_literal s)
  | String "-" d =>
      match digits_value d 0 with
      | Some z => inr (- z)
      | None => inl (invalid_literal s)
      end
  | _ =>
      match digits_value s 0 with
      | Some z => inr z
      | None => inl (invalid_literal s)
      end
  end.

Definition truncate (q : Q) : Z := Z.quot (Qnum q) (Zpos (Qden q)).

Definition ref_astype_int (c : ref_cell) : exn + Z :=
  match c with
  | CNull => inl "Cannot convert non-finite values (NA or inf) to integer"
  | CNum q => inr (truncate q)
  | CText s => ref_int s
  end.

Definition ref_astype_float (c : ref_cell) : exn + Q :=
  match c with
  | CNull => inl "float() argument must be a string or a real number"
  | CNum q => inr q
  | CText s => inl ("could not convert string to float: '" ++ s ++ "'")%string
  end.

Definition qmul (a b : Q) : Q := Qred (a * b).
Definition qdiv (a b : Q) : Q := Qred (a / b).
Definition qsub (a b : Q) : Q := Qred (a - b).
Definition qadd (a b : Q) : Q := Qred (a + b).

(** Sine and cosine by their first Taylor terms. *)
Definition ref_sin (x : Q) : Q := qsub x (qdiv (qmul x (qmul x x)) (6 # 1)).
Definition ref_cos (x : Q) : Q := qsub (1 # 1) (qdiv (qmul x x) (2 # 1)).

(** Round half to even at [nd] decimals. *)
Definition ref_round (q : Q) (nd : Z) : Q :=
  let s := 10 ^ nd in
  let num := Qnum q * s in
  let den := Zpos (Qden q) in
  let fl := num / den in
  let r := 2 * (num mod den) in
  let n := if r <? den then fl
           else if den <? r then fl + 1
           else if Z.even fl then fl else fl + 1 in
  Qred (Qmake n (Z.to_pos s)).

Definition qsum (l : list Q) : Q := fold_right qadd (0 # 1) l.

Definition qmean (l : list Q) : Q := qdiv (qsum l) (inject_Z (Z.of_nat (List.length l))).

Definition qabs (a : Q) : Q := Qred (Qabs a).

Definition column (j : nat) (X : list (list Q)) : list Q :=
  map (fun r => nth j r (0 # 1)) X.

(** Mean and mean absolute deviation of a column; a constant column is
    scaled by 1. *)
Definition column_params (c : list Q) : Q * Q :=
  let mu := qmean c in
  let dev := qmean (map (fun x => qabs (qsub x mu)) c) in
  (mu, if Qeq_bool dev (0 # 1) then (1 # 1) else dev).

Definition ref_scaler_fit (X : list (list Q)) : exn + list (Q * Q) :=
  match X with
  | [] => inl "Found array with 0 sample(s) while a minimum of 1 is required by StandardScaler."
  | _ => inr (map (fun j => column_params (column j X)) [0%nat; 1%nat; 2%nat])
  end.

Definition ref_scaler_transform (p : list (Q * Q)) (X : list (list Q))
    : exn + list (list Q) :=
  inr (map (fun r => map (fun '(x, (mu, sc)) => qdiv (qsub x mu) sc)
                         (combine r p)) X).

(** Least-squares line through (first feature, target): slope, intercept. *)
Definition ref_lr_fit (X : list (list Q)) (y : list Q) : exn + (Q * Q) :=
  match X with
  | [] => inl "Found array with 0 sample(s) while a minimum of 1 is required by LinearRegression."
  | _ =>
      let x := column 0 X in
      let mx := qmean x in
      let my := qmean y in
      let sxy := qsum (map (fun '(a, b) => qmul (qsub a mx) (qsub b my))
                           (combine x y)) in
      let sxx := qsum (map (fun a => qmul (qsub a mx) (qsub a mx)) x) in
      let slope := if Qeq_bool sxx (0 # 1) then (0 # 1) else qdiv sxy sxx in
      inr (slope, qsub my (qmul slope mx))
  end.

Definition ref_lr_predict (m : Q * Q) (X : list (list Q)) : exn + list Q :=
  inr (map (fun r => qadd (snd m) (qmul (fst m) (nth 0 r (0 # 1)))) X).

Definition ref_mse (y y' : list Q) : exn + Q :=
  inr (qmean (map (fun '(a, b) => qmul (qsub a b) (qsub a b)) (combine y y'))).

Definition ref_mape (y y' : list Q) : exn + Q :=
  inr (qmean (map (fun '(a, b) =>
                     qdiv (qabs (qsub a b))
                          (if Qeq_bool a (0 # 1) then (1 # 1) else qabs a))
                  (combine y y'))).

Definition ref_Timestamp (y m d : Z) : exn + (Z * Z * Z) :=
  if negb ((1 <=? y) && (y <=? 9999)) then inl "year is out of range"
  else if negb ((1 <=? m) && (m <=? 12)) then inl "month must be in 1..12"
  else if negb ((1 <=? d) && (d <=? 28)) then inl "day is out of range for month"
  else inr (y, m, d).

Definition ref_strftime (t : Z * Z * Z) (fmt : string) : string :=
  let '(y, m, d) := t in
  if String.eqb fmt "%B" then month_name_of m
  else if String.eqb fmt "%Y-%m-%d" then iso_date y m d
  else fmt.

#[export] Instance ref_runtime : Runtime := {|
  R := Q;
  cell := ref_cell;
  timestamp := Z * Z * Z;
  scaler_params := list (Q * Q);
  lr_model := Q * Q;
  py_int := ref_int;
  astype_int := ref_astype_int;
  astype_float := ref_astype_float;
  of_int := inject_Z;
  float_to_int := fun q => inr (truncate q);
  fmul := qmul;
  fdiv := qdiv;
  np_pi := (355 # 113);
  np_sin := ref_sin;
  np_cos := ref_cos;
  py_round := ref_round;
  sk_scaler_fit := ref_scaler_fit;
  sk_scaler_transform := ref_scaler_transform;
  sk_lr_fit := ref_lr_fit;
  sk_lr_predict := ref_lr_predict;
  mean_squared_error := ref_mse;
  mean_absolute_percentage_error := ref_mape;
  pd_Timestamp := ref_Timestamp;
  strftime := ref_strftime
|}.

Definition row (y m : Z) (t : Q) : raw_row :=
  {| raw_year := CNum (inject_Z y); raw_month := CNum (inject_Z m);
     raw_total := CNum t |}.

(** The six months of the scenario: January to June 2023. *)
Definition sales_2023 : list raw_row :=
  [row 2023 1 (100 # 1); row 2023 2 (110 # 1); row 2023 3 (105 # 1);
   row 2023 4 (120 # 1); row 2023 5 (130 # 1); row 2023 6 (125 # 1)].


Definition point (y m : Z) (t : Q) : hist_point :=
  {| year := y; month := m; total_sales := t |}.

(** The two histories after the conversions. *)
Definition hist_2023 : list hist_point :=
  [point 2023 1 (100 # 1); point 2023 2 (110 # 1); point 2023 3 (105 # 1);
   point 2023 4 (120 # 1); point 2023 5 (130 # 1); point 2023 6 (125 # 1)].


(** The 2023 history as a driver that delivers text would hand it over. *)
Definition text_row (y m : string) (t : Q) : raw_row :=
  {| raw_year := CText y; raw_month := CText m; raw_total := CNum t |}.

Definition sales_2023_as_text : list raw_row :=
  [text_row "2023" "1" (100 # 1); text_row "2023" "2" (110 # 1);
   text_row "2023" "3" (105 # 1); text_row "2023" "4" (120 # 1);
   text_row "2023" "5" (130 # 1); text_row "2023" "6" (125 # 1)].


(** Six rows: the total of the first is text, the year of the last is
    missing. *)
Definition sales_two_bad_cells : list raw_row :=
  [{| raw_year := CNum (inject_Z 2023); raw_month := CNum (inject_Z 1);
      raw_total := CText "n/a" |};
   row 2023 2 (110 # 1); row 2023 3 (105 # 1); row 2023 4 (120 # 1);
   row 2023 5 (130 # 1);
   {| raw_year := CNull; raw_month := CNum (inject_Z 6);
      raw_total := CNum (125 # 1) |}].

(** The 2023 history with its first two rows dated two years earlier. *)
Definition sales_after_gap : list raw_row :=
  [row 2021 1 (100 # 1); row 2021 2 (110 # 1); row 2023 3 (105 # 1);
   row 2023 4 (120 # 1); row 2023 5 (130 # 1); row 2023 6 (125 # 1)].

Definition hist_after_gap : list hist_point :=
  [point 2021 1 (100 # 1); point 2021 2 (110 # 1); point 2023 3 (105 # 1);
   point 2023 4 (120 # 1); point 2023 5 (130 # 1); point 2023 6 (125 # 1)].

(** A server that knows one URL and holds the 2023 history. *)
Definition ref_create_engine (url : option string)
    (connect_args : list (string * string)) : exn + string :=
  match url with
  | None => inl "Expected string or URL object, got None"
  | Some u =>
      if String.prefix "postgres://" u
      then inl "Can't load plugin: sqlalchemy.dialects:postgres"
      else inr u
  end.

Definition ref_run_query (eng : string) : exn + list raw_row :=
  if String.eqb eng "postgresql://shop:pw@db/sales" then inr sales_2023
  else inl "could not translate host name to address".

Definition ask (h : string) : request := {| args := [("months_ahead", h)] |}.


Definition fresh : state :=
  {| scaler_X := None; model := None; trace := []; stdout := [] |}.

Definition run_after_gap : response * state :=
  predict_sales (ask "2") (inr sales_after_gap) fresh.

(** The scenario: two months ahead of June 2023, in a fresh process. *)
Definition run_2023 : response * state :=
  predict_sales (ask "2") (inr sales_2023) fresh.

End Reference.

(** * Properties *)

Section Properties.

Context `{RT : Runtime}.

(** ** State bookkeeping *)

Lemma with_trace_nil s : with_trace s [] = s.
Proof. destruct s; unfold with_trace; simpl; now rewrite app_nil_r. Qed.

Lemma with_trace_app s a b :
  with_trace (with_trace s a) b = with_trace s (a ++ b).
Proof. unfold with_trace; simpl; now rewrite app_assoc. Qed.

(** ** The monad *)

Lemma bind_inr {A B} (m : M A) (f : A -> M B) s b s' :
  bind m f s = (inr b, s') ->
  exists a s1, m s = (inr a, s1) /\ f a s1 = (inr b, s').
Proof.
  unfold bind; intros H0.
  destruct (m s) as [[e | a] s1]; [discriminate |].
  now exists a, s1.
Qed.

Lemma bind_ok {A B} (m : M A) (f : A -> M B) s a s1 :
  m s = (inr a, s1) -> bind m f s = f a s1.
Proof. unfold bind; now intros ->. Qed.

Lemma bind_raises {A B} (m : M A) (f : A -> M B) s e s1 :
  m s = (inl e, s1) -> bind m f s = (inl e, s1).
Proof. unfold bind; now intros ->. Qed.

(** ** Python helpers *)

Lemma py_range_length a b : List.length (py_range a b) = Z.to_nat (b - a).
Proof. unfold py_range; now rewrite length_map, length_seq. Qed.

Lemma map_raising_length {A B} (f : A -> exn + B) l bs :
  map_raising f l = inr bs -> List.length bs = List.length l.
Proof.
  revert bs; induction l as [| a l IH]; simpl; intros bs H0.
  - now inversion H0.
  - destruct (f a) as [e | b]; [discriminate |].
    destruct (map_raising f l) as [e | bs']; [discriminate |].
    inversion H0; subst; simpl; f_equal; now apply IH.
Qed.

Lemma astype_frame_length raw df :
  astype_frame raw = inr df -> List.length df = List.length raw.
Proof.
  unfold astype_frame; intros H0.
  destruct (map_raising astype_int (map raw_year raw)) as [e | ys] eqn:Ey;
    [discriminate |].
  destruct (map_raising astype_int (map raw_month raw)) as [e | ms] eqn:Em;
    [discriminate |].
  destruct (map_raising astype_float (map raw_total raw)) as [e | ts] eqn:Et;
    [discriminate |].
  apply map_raising_length in Ey, Em, Et.
  rewrite length_map in Ey, Em, Et.
  inversion H0; subst.
  rewrite length_map, !length_combine. lia.
Qed.

(** ** The projection loop *)

Ltac unfold_monad :=
  unfold scaler_transform, model_predict, scaler_fit_transform, model_fit,
    read_sql_query, StandardScaler, LinearRegression, index0, iloc_last,
    bind, lift, modify, get_state, ret, raise in *.

Ltac call_ok H :=
  match type of H with
  | context [match ?c with inl _ => _ | inr _ => _ end] =>
      let E := fresh "E" in
      destruct c eqn:E; [discriminate |]; cbn in H
  end.

Lemma projection_step_inv p mdl n i y m acc s y' m' acc' s' :
  scaler_X s = Some p -> model s = Some mdl ->
  projection_step n i (y, m, acc) s = (inr (y', m', acc'), s') ->
  exists xs ys y_hat t,
    (y', m') = next_month (y, m) /\
    sk_scaler_transform p [feature_row (n + i) m'] = inr xs /\
    sk_lr_predict mdl xs = inr ys /\
    hd_error ys = Some y_hat /\
    pd_Timestamp y' m' 1 = inr t /\
    acc' = acc ++ [forecast_dict y' m' (strftime t "%B") (py_round y_hat 2)
                     (strftime t "%Y-%m-%d")] /\
    s' = with_trace s [EvScalerTransform p [feature_row (n + i) m'];
                       EvLrPredict mdl xs].
Proof.
  intros Hp Hm H0.
  unfold projection_step, next_month in *; simpl fst; simpl snd.
  destruct (m + 1 >? 12) eqn:Hroll; unfold_monad; cbn in H0;
    rewrite Hp in H0; cbn in H0;
    call_ok H0; rewrite Hm in H0; cbn in H0;
    call_ok H0;
    (match type of H0 with
     | context [match ?l with [] => _ | _ :: _ => _ end] =>
         destruct l as [| y_hat ys']; [discriminate |]; cbn in H0
     end);
    call_ok H0;
    inversion H0; subst; do 4 eexists; cbn; rewrite ?Hroll;
    repeat split; try eassumption; try reflexivity;
    unfold with_trace, add_event; simpl; rewrite <- app_assoc; reflexivity.
Qed.

Lemma projection_step_run p mdl n i ym acc s xs ys y_hat t :
  scaler_X s = Some p -> model s = Some mdl ->
  sk_scaler_transform p [feature_row (n + i) (snd (next_month ym))] = inr xs ->
  sk_lr_predict mdl xs = inr ys ->
  hd_error ys = Some y_hat ->
  pd_Timestamp (fst (next_month ym)) (snd (next_month ym)) 1 = inr t ->
  projection_step n i (fst ym, snd ym, acc) s =
    (inr (fst (next_month ym), snd (next_month ym),
          acc ++ [forecast_dict (fst (next_month ym)) (snd (next_month ym))
                    (strftime t "%B") (py_round y_hat 2)
                    (strftime t "%Y-%m-%d")]),
     with_trace s [EvScalerTransform p
                     [feature_row (n + i) (snd (next_month ym))];
                   EvLrPredict mdl xs]).
Proof.
  destruct ym as [y m]; intros Hp Hm Ext Eys Ehd Et.
  unfold projection_step, next_month in *; simpl fst in *; simpl snd in *.
  destruct ys as [| y0 ys']; [discriminate |]; inversion Ehd; subst y0.
  unfold_monad; cbn.
  destruct (m + 1 >? 12); simpl fst in *; simpl snd in *;
    cbn; rewrite Hp; cbn; rewrite Ext; cbn; rewrite Hm; cbn;
    rewrite Eys; cbn; rewrite Et; cbn;
    unfold with_trace, add_event; simpl; rewrite <- app_assoc; reflexivity.
Qed.

Lemma projection_loop_inv p mdl n steps :
  forall y m acc s y' m' acc' s',
    scaler_X s = Some p -> model s = Some mdl ->
    for_each steps (projection_step n) (y, m, acc) s
      = (inr (y', m', acc'), s') ->
    exists vs evs,
      projects p mdl n steps (y, m) vs evs /\
      acc' = acc ++ vs /\ s' = with_trace s evs.
Proof.
  induction steps as [| i steps IH]; intros y m acc s y' m' acc' s' Hp Hm H0.
  - inversion H0; subst. exists [], []. split; [constructor |].
    now rewrite app_nil_r, with_trace_nil.
  - simpl in H0. apply bind_inr in H0 as ([[y1 m1] acc1] & s1 & Hstep & H0).
    apply (projection_step_inv p mdl) in Hstep as
        (xs & ys & y_hat & t & Hym & Ext & Eys & Ehd & Et & -> & ->);
      try assumption.
    apply IH in H0 as (vs & evs & Hproj & -> & ->); try assumption.
    assert (Hy : y1 = fst (next_month (y, m))) by now rewrite <- Hym.
    assert (Hm1 : m1 = snd (next_month (y, m))) by now rewrite <- Hym.
    rewrite Hym in Hproj. subst y1 m1.
    eexists; eexists; split; [| split].
    + eapply projects_cons; eauto.
    + now rewrite <- app_assoc.
    + now rewrite with_trace_app.
Qed.

Lemma projection_loop_run p mdl n steps ym vs evs :
  projects p mdl n steps ym vs evs ->
  forall acc s,
    scaler_X s = Some p -> model s = Some mdl ->
    exists y' m',
      for_each steps (projection_step n) (fst ym, snd ym, acc) s
        = (inr (y', m', acc ++ vs), with_trace s evs).
Proof.
  induction 1 as [ym | i steps ym xs ys y_hat t vs evs Ext Eys Ehd Et _ IH];
    intros acc s Hp Hm.
  - exists (fst ym), (snd ym). simpl.
    now rewrite app_nil_r, with_trace_nil.
  - simpl.
    erewrite bind_ok by (eapply projection_step_run; eauto).
    match goal with
    | |- exists _ _, for_each _ _ (_, _, ?a) ?s1 = _ =>
        destruct (IH a s1 Hp Hm) as (y' & m' & Hrun)
    end.
    exists y', m'. rewrite Hrun.
    now rewrite <- app_assoc, with_trace_app.
Qed.

(** ** The history loop *)

Lemma history_step_inv row acc s acc' s' :
  history_step row acc s = (inr acc', s') ->
  s' = s /\ exists v, echo_of row v /\ acc' = acc ++ [v].
Proof.
  unfold history_step; unfold_monad; cbn; intros H0.
  repeat call_ok H0. inversion H0; subst. split; [reflexivity |].
  eexists; split; [| reflexivity].
  do 3 eexists; repeat split; eassumption.
Qed.

Lemma history_step_run row v acc s :
  echo_of row v -> history_step row acc s = (inr (acc ++ [v]), s).
Proof.
  intros (y & m & t & Ey & Em & Et & ->).
  unfold history_step; unfold_monad; cbn.
  now rewrite Ey, Em; cbn; rewrite Et.
Qed.

Lemma history_loop_inv df :
  forall acc s acc' s',
    for_each df history_step acc s = (inr acc', s') ->
    s' = s /\ exists vs, Forall2 echo_of df vs /\ acc' = acc ++ vs.
Proof.
  induction df as [| row df IH]; intros acc s acc' s' H0.
  - inversion H0; subst. split; [reflexivity |].
    exists []. split; [constructor | now rewrite app_nil_r].
  - simpl in H0. apply bind_inr in H0 as (acc1 & s1 & Hstep & H0).
    apply history_step_inv in Hstep as (-> & v & Hv & ->).
    apply IH in H0 as (-> & vs & Hvs & ->).
    split; [reflexivity |]. exists (v :: vs).
    split; [now constructor | now rewrite <- app_assoc].
Qed.

Lemma history_loop_run df vs :
  Forall2 echo_of df vs ->
  forall acc s, for_each df history_step acc s = (inr (acc ++ vs), s).
Proof.
  induction 1 as [| row v df vs Hv _ IH]; intros acc s; simpl.
  - now rewrite app_nil_r.
  - erewrite bind_ok by (eapply history_step_run; eassumption).
    now rewrite IH, <- app_assoc.
Qed.

(** ** The route, call by call *)

Lemma lift_inr {A} (r : exn + A) s a s1 :
  lift r s = (inr a, s1) -> r = inr a /\ s1 = s.
Proof. unfold lift; intros H0; inversion H0; now subst. Qed.

Lemma read_sql_query_inr db s raw s1 :
  read_sql_query db s = (inr raw, s1) ->
  db = inr raw /\ s1 = add_event EvReadSql s.
Proof. unfold_monad; cbn; intros H0; inversion H0; now subst. Qed.

Lemma scaler_fit_transform_inr X s Xs s1 :
  scaler_fit_transform X s = (inr Xs, s1) ->
  exists p,
    sk_scaler_fit X = inr p /\ sk_scaler_transform p X = inr Xs /\
    s1 = set_scaler (Some p) (add_event (EvScalerFit X) s).
Proof.
  unfold_monad; cbn; intros H0. call_ok H0.
  inversion H0; subst. eexists; repeat split; eassumption.
Qed.

Lemma model_fit_inr X y s u s1 :
  model_fit X y s = (inr u, s1) ->
  exists m,
    sk_lr_fit X y = inr m /\
    s1 = set_model (Some m) (add_event (EvLrFit X y) s).
Proof.
  unfold_monad; cbn; intros H0. call_ok H0.
  inversion H0; subst. eexists; split; reflexivity.
Qed.

Lemma model_predict_inr X s ys s1 :
  model_predict X s = (inr ys, s1) ->
  exists m,
    model s = Some m /\ sk_lr_predict m X = inr ys /\
    s1 = add_event (EvLrPredict m X) s.
Proof.
  unfold_monad; cbn; intros H0.
  destruct (model s) as [m |]; cbn in H0; [| discriminate].
  inversion H0; subst. now exists m.
Qed.

Lemma iloc_last_run {A} (l : list A) (d : A) s :
  l <> [] -> iloc_last l s = (inr (last l d), s).
Proof.
  intros Hl. destruct (exists_last Hl) as (l' & a & ->).
  unfold iloc_last. now rewrite rev_unit, last_last.
Qed.

Lemma last_map {A B} (f : A -> B) (l : list A) d d' :
  l <> [] -> last (map f l) d' = f (last l d).
Proof.
  intros Hl. destruct (exists_last Hl) as (l' & a & ->).
  rewrite map_app; simpl. now rewrite !last_last.
Qed.

Lemma last_year_month_split df :
  df <> [] ->
  last_year_month df = (last (map year df) 0, last (map month df) 0).
Proof.
  intros Hdf. unfold last_year_month.
  rewrite (last_map _ df {| year := 0; month := 0; total_sales := of_int 0 |})
    by exact Hdf.
  now rewrite !(last_map _ df
                  {| year := 0; month := 0; total_sales := of_int 0 |})
    by exact Hdf.
Qed.

Lemma frame_nonempty raw df :
  astype_frame raw = inr df -> 6 <= len raw -> df <> [].
Proof.
  intros Hdf Hlen ->. apply astype_frame_length in Hdf.
  unfold len in Hlen. simpl in Hdf. lia.
Qed.

(** The three ways the [try] block returns: the two 400 answers and the
    forecast. *)
Lemma try_inr_inv req db s resp s' :
  predict_sales_try req db s = (inr resp, s') ->
  (resp = (error_body "months_ahead must be between 1 and 12", 400) /\
   s' = s) \/
  (resp = (error_body "Not enough data for prediction", 400) /\
   s' = add_event EvReadSql s) \/
  (exists body, resp = (body, 200) /\ forecast_run req db s body s').
Proof.
  unfold predict_sales_try; intros H0.
  apply bind_inr in H0 as (H & s1 & Hparse & H0).
  apply lift_inr in Hparse as (Hparse & ->).
  destruct ((H <? 1) || (H >? 12)) eqn:Hrange;
    [inversion H0; subst; now left |].
  apply bind_inr in H0 as (raw & s1 & Hread & H0).
  apply read_sql_query_inr in Hread as (-> & ->).
  destruct (len raw <? 6) eqn:Hlen;
    [inversion H0; subst; right; now left |].
  right; right.
  apply bind_inr in H0 as (df & s1 & Hdf & H0).
  apply lift_inr in Hdf as (Hdf & ->).
  assert (Hne : df <> []) by (eapply frame_nonempty; [eassumption | lia]).
  unfold fit_and_project in H0.
  apply bind_inr in H0 as ([] & s1 & Hnew & H0).
  inversion Hnew; subst s1; clear Hnew.
  apply bind_inr in H0 as (Xs & s1 & Hfit & H0).
  apply scaler_fit_transform_inr in Hfit as (p & Hp & HXs & ->).
  apply bind_inr in H0 as ([] & s1 & Hnew & H0).
  inversion Hnew; subst s1; clear Hnew.
  apply bind_inr in H0 as ([] & s1 & Hmfit & H0).
  apply model_fit_inr in Hmfit as (mdl & Hmdl & ->).
  apply bind_inr in H0 as (y_pred & s1 & Hpred & H0).
  apply model_predict_inr in Hpred as (mdl' & Hm' & Hpred & ->).
  simpl in Hm'; inversion Hm'; subst mdl'; clear Hm'.
  apply bind_inr in H0 as (mse & s1 & Hmse & H0).
  apply lift_inr in Hmse as (Hmse & ->).
  apply bind_inr in H0 as (mape0 & s1 & Hmape & H0).
  apply lift_inr in Hmape as (Hmape & ->).
  apply bind_inr in H0 as (ly & s1 & Hly & H0).
  rewrite (iloc_last_run _ 0) in Hly by (now destruct df).
  inversion Hly; subst ly s1; clear Hly.
  apply bind_inr in H0 as (lm & s1 & Hlm & H0).
  rewrite (iloc_last_run _ 0) in Hlm by (now destruct df).
  inversion Hlm; subst lm s1; clear Hlm.
  apply bind_inr in H0 as ([[y' m'] preds] & s1 & Hloop & H0).
  eapply projection_loop_inv in Hloop as (vs & evs & Hproj & -> & ->);
    [| reflexivity | reflexivity].
  apply bind_inr in H0 as (hist & s1 & Hhist & H0).
  apply history_loop_inv in Hhist as (-> & hs & Hhs & ->).
  inversion H0; subst; clear H0.
  rewrite <- last_year_month_split in Hproj by exact Hne.
  replace (with_trace _ evs) with
    {| scaler_X := Some p; model := Some mdl;
       trace := trace s ++
                EvReadSql :: EvScalerFit (feature_matrix df)
                  :: EvLrFit Xs (map total_sales df)
                  :: EvLrPredict mdl Xs :: evs;
       stdout := stdout s |}
    by (unfold with_trace; simpl; now rewrite <- !app_assoc).
  eexists; split; [reflexivity |].
  apply orb_false_iff in Hrange as [Hlo Hhi].
  apply Z.ltb_ge in Hlo, Hlen. rewrite Z.gtb_ltb in Hhi. apply Z.ltb_ge in Hhi.
  eapply forecast_run_intro; eauto; lia.
Qed.

(** A run answers 200 exactly when it is a [forecast_run]. *)
Lemma try_200_inv req db s body s' :
  predict_sales_try req db s = (inr (body, 200), s') ->
  forecast_run req db s body s'.
Proof.
  intros H0. apply try_inr_inv in H0 as [[H0 _] | [[H0 _] | (b & H0 & Hrun)]];
    inversion H0; now subst.
Qed.

Lemma horizon_in_range H :
  1 <= H <= 12 -> (H <? 1) || (H >? 12) = false.
Proof.
  intros HH. apply orb_false_iff; split; [apply Z.ltb_ge; lia |].
  rewrite Z.gtb_ltb. apply Z.ltb_ge; lia.
Qed.

Lemma try_200_run req db s body s' :
  forecast_run req db s body s' ->
  predict_sales_try req db s = (inr (body, 200), s').
Proof.
  intros [H raw df p Xs mdl y_pred mse mape0 preds evs hist
            Hparse HH -> Hlen Hdf Hp HXs Hmdl Hpred Hmse Hmape Hproj Hhist].
  assert (Hne : df <> []) by (eapply frame_nonempty; eassumption).
  unfold predict_sales_try.
  rewrite (bind_ok _ _ s H s) by (unfold lift; now rewrite Hparse).
  rewrite horizon_in_range by exact HH.
  erewrite bind_ok by (unfold_monad; cbn; reflexivity).
  replace (len raw <? 6) with false by (symmetry; apply Z.ltb_ge; lia).
  erewrite bind_ok by (unfold lift; rewrite Hdf; reflexivity).
  unfold fit_and_project.
  erewrite bind_ok by (unfold_monad; reflexivity).
  erewrite bind_ok
    by (unfold_monad; cbn; rewrite Hp; cbn; rewrite HXs; reflexivity).
  erewrite bind_ok by (unfold_monad; reflexivity).
  erewrite bind_ok by (unfold_monad; cbn; rewrite Hmdl; reflexivity).
  erewrite bind_ok by (unfold_monad; cbn; rewrite Hpred; reflexivity).
  erewrite bind_ok by (unfold lift; rewrite Hmse; reflexivity).
  erewrite bind_ok by (unfold lift; rewrite Hmape; reflexivity).
  erewrite bind_ok by (apply (iloc_last_run _ 0); now destruct df).
  erewrite bind_ok by (apply (iloc_last_run _ 0); now destruct df).
  rewrite last_year_month_split in Hproj by exact Hne.
  match goal with
  | |- bind (for_each _ _ (_, _, ?a)) _ ?s0 = _ =>
      destruct (projection_loop_run _ _ _ _ _ _ _ Hproj a s0
                  eq_refl eq_refl) as (y' & m' & Hloop)
  end.
  simpl fst in Hloop; simpl snd in Hloop.
  rewrite (bind_ok _ _ _ _ _ Hloop).
  erewrite bind_ok by (apply history_loop_run; exact Hhist).
  unfold ret; simpl. f_equal.
  unfold with_trace; simpl. now rewrite <- !app_assoc.
Qed.

(** ** Calendar arithmetic *)

Lemma next_month_valid ym :
  valid_month (snd ym) -> valid_month (snd (next_month ym)).
Proof.
  destruct ym as [y m]; unfold valid_month, next_month; cbn [fst snd].
  intros Hm. destruct (Z.gtb_spec (m + 1) 12); cbn [fst snd]; lia.
Qed.

Lemma next_month_ordinal ym :
  valid_month (snd ym) ->
  month_ordinal (next_month ym) = month_ordinal ym + 1.
Proof.
  destruct ym as [y m]; unfold valid_month, next_month, month_ordinal.
  cbn [fst snd]; intros Hm.
  destruct (Z.gtb_spec (m + 1) 12); cbn [fst snd]; lia.
Qed.

Lemma next_month_year ym :
  fst ym <= fst (next_month ym).
Proof.
  destruct ym as [y m]; unfold next_month; cbn [fst snd].
  destruct (Z.gtb_spec (m + 1) 12); cbn [fst snd]; lia.
Qed.


Lemma months_after_zero ym :
  valid_month (snd ym) -> months_after 0 ym = ym.
Proof.
  destruct ym as [y m]; unfold valid_month, months_after, month_ordinal.
  cbn [fst snd]; intros Hm.
  f_equal; Z.to_euclidean_division_equations; lia.
Qed.

Lemma months_after_ordinal k ym ym' :
  month_ordinal ym' = month_ordinal ym + 1 ->
  months_after (k + 1) ym = months_after k ym'.
Proof.
  unfold months_after; intros ->.
  replace (month_ordinal ym - 1 + (k + 1))
    with (month_ordinal ym + 1 - 1 + k) by lia.
  reflexivity.
Qed.

Lemma months_after_next k ym :
  valid_month (snd ym) ->
  months_after (k + 1) ym = months_after k (next_month ym).
Proof.
  intros Hm. apply months_after_ordinal. now apply next_month_ordinal.
Qed.

Lemma projected_months_succ ym k :
  valid_month (snd ym) ->
  projected_months ym (S k)
    = next_month ym :: projected_months (next_month ym) k.
Proof.
  intros Hm. unfold projected_months. simpl. f_equal.
  - change 1 with (0 + 1). rewrite months_after_next by exact Hm.
    apply months_after_zero. now apply next_month_valid.
  - rewrite <- seq_shift, map_map. apply map_ext; intros j.
    replace (Z.of_nat (S j)) with (Z.of_nat j + 1) by lia.
    now apply months_after_next.
Qed.







(** ** What a projection produces *)

Lemma projects_length p mdl n steps ym vs evs :
  projects p mdl n steps ym vs evs -> List.length vs = List.length steps.
Proof. induction 1; simpl; congruence. Qed.

Lemma projects_dates p mdl n steps ym vs evs :
  projects p mdl n steps ym vs evs ->
  valid_month (snd ym) ->
  map entry_year_month vs
    = map Some (projected_months ym (List.length steps)).
Proof.
  induction 1 as [ym | i steps ym xs ys y_hat t vs evs _ _ _ _ _ IH];
    intros Hm; [reflexivity |].
  simpl List.length. rewrite projected_months_succ by exact Hm.
  simpl map. rewrite <- IH by now apply next_month_valid.
  f_equal. now destruct (next_month ym).
Qed.

Lemma projects_rounded p mdl n steps ym vs evs :
  projects p mdl n steps ym vs evs ->
  Forall (fun v => exists x,
            float_field "predicted_sales" v = Some x /\ rounded_to 2 x) vs.
Proof.
  induction 1 as [ym | i steps ym xs ys y_hat t vs evs _ _ _ _ _ IH];
    constructor; [| exact IH].
  exists (py_round y_hat 2). split; [reflexivity | now exists y_hat].
Qed.

Lemma projects_time_index p mdl n steps ym vs evs :
  projects p mdl n steps ym vs evs ->
  map (fun pX => time_index_of (snd pX)) (scaler_transforms evs)
    = map (fun i => Some (of_int (n + i))) steps.
Proof.
  induction 1 as [ym | i steps ym xs ys y_hat t vs evs _ _ _ _ _ IH];
    [reflexivity |].
  simpl. now rewrite IH.
Qed.

Lemma projects_scaler p mdl n steps ym vs evs :
  projects p mdl n steps ym vs evs ->
  scaler_fits evs = [] /\
  List.length (scaler_transforms evs) = List.length steps /\
  Forall (fun pX => fst pX = p /\ List.length (snd pX) = 1%nat)
         (scaler_transforms evs).
Proof.
  induction 1 as [ym | i steps ym xs ys y_hat t vs evs _ _ _ _ _ IH].
  - repeat split; constructor.
  - destruct IH as (Hfits & Hlen & Hall). simpl.
    repeat split; [exact Hfits | now rewrite Hlen | ].
    constructor; [now split | exact Hall].
Qed.

(** ** What the echo of the history is *)

(** ** Runs on a total runtime *)

Lemma time_index_column_length df :
  List.length (time_index_column df) = List.length df.
Proof.
  unfold time_index_column, len. rewrite py_range_length. lia.
Qed.

Lemma feature_matrix_shape df :
  shape (List.length df) (feature_matrix df).
Proof.
  unfold shape, feature_matrix. split.
  - rewrite length_map, length_combine, time_index_column_length. lia.
  - apply Forall_map, Forall_forall. now intros [t pt] _.
Qed.

Lemma last_in_history (P : hist_point -> Prop) df :
  df <> [] -> Forall P df ->
  exists pt, In pt df /\ P pt /\ last_year_month df = (year pt, month pt).
Proof.
  intros Hne Hall. destruct (exists_last Hne) as (df' & pt & ->).
  exists pt. apply Forall_app in Hall as [_ Hpt]. inversion Hpt; subst.
  repeat split; [apply in_or_app; right; now left | assumption |].
  unfold last_year_month. rewrite map_app. simpl. now rewrite last_last.
Qed.

Section Total.

Variables lo hi : Z.
Hypothesis total : runtime_total lo hi.

Lemma projects_total p mdl n n0 X0 n1 X1 y1 :
  shape (S n0) X0 -> sk_scaler_fit X0 = inr p ->
  shape (S n1) X1 -> sk_lr_fit X1 y1 = inr mdl ->
  forall steps ym,
    valid_month (snd ym) -> lo <= fst ym ->
    month_ordinal ym + Z.of_nat (List.length steps) <= 12 * hi + 12 ->
    exists vs evs, projects p mdl n steps ym vs evs.
Proof.
  intros HX0 Hp HX1 Hmdl.
  induction steps as [| i steps IH]; intros ym Hm Hlo Hhi.
  - exists [], []. constructor.
  - pose proof (next_month_valid ym Hm) as Hm'.
    pose proof (next_month_ordinal ym Hm) as Hord.
    pose proof (next_month_year ym) as Hyear.
    simpl List.length in Hhi.
    destruct (IH (next_month ym)) as (vs & evs & Hrest);
      [exact Hm' | lia | lia |].
    destruct (scaler_transform_total lo hi total n0 X0 p 1%nat
                [feature_row (n + i) (snd (next_month ym))] HX0 Hp)
      as (xs & Ext & Hxs);
      [split; [reflexivity | repeat constructor] |].
    destruct (lr_predict_total lo hi total n1 X1 y1 mdl 1%nat xs HX1 Hmdl Hxs)
      as (ys & Eys & Hys).
    destruct ys as [| y_hat ys']; [discriminate |].
    destruct (timestamp_total lo hi total (fst (next_month ym))
                (snd (next_month ym))) as (t & Et).
    { unfold month_ordinal, valid_month in *. lia. }
    { exact Hm'. }
    do 2 eexists. eapply projects_cons; eauto. reflexivity.
Qed.

Lemma echo_total df :
  Forall (fun pt => lo <= year pt <= hi /\ valid_month (month pt)) df ->
  exists hist, Forall2 echo_of df hist.
Proof.
  destruct (float_exact_range lo hi total) as [Hlo Hhi].
  induction 1 as [| pt df [Hy Hm] _ (hist & IH)].
  - exists []. constructor.
  - destruct (timestamp_total lo hi total (year pt) (month pt) Hy Hm)
      as (t & Et).
    eexists (_ :: hist). constructor; [| exact IH].
    exists (year pt), (month pt), t. unfold valid_month in Hm.
    repeat split; try assumption;
      apply (float_int_exact lo hi total); lia.
Qed.

Lemma forecast_total req raw s H df :
  parse_months_ahead req = inr H -> 1 <= H <= 12 ->
  astype_frame raw = inr df -> 6 <= len df ->
  well_formed_history lo hi df ->
  exists body s', forecast_run req (inr raw) s body s'.
Proof.
  intros Hparse HH Hdf Hlen Hwf.
  pose proof (astype_frame_length raw df Hdf) as Hraw.
  assert (Hne : df <> []) by (intros ->; unfold len in Hlen; simpl in Hlen; lia).
  pose proof (feature_matrix_shape df) as HX.
  destruct (List.length df) as [| n0] eqn:Hn; [now destruct df |].
  destruct (scaler_fit_total lo hi total n0 _ HX) as (p & Hp).
  destruct (scaler_transform_total lo hi total n0 _ p (S n0) _ HX Hp HX)
    as (Xs & HXs & HXs_shape).
  destruct (lr_fit_total lo hi total n0 Xs (map total_sales df) HXs_shape)
    as (mdl & Hmdl); [now rewrite length_map |].
  destruct (lr_predict_total lo hi total n0 Xs _ mdl (S n0) Xs
              HXs_shape Hmdl HXs_shape) as (y_pred & Hpred & Hpred_len).
  destruct (mse_total lo hi total (map total_sales df) y_pred) as (mse & Hmse);
    [now destruct df | now rewrite length_map, Hpred_len |].
  destruct (mape_total lo hi total (map total_sales df) y_pred)
    as (mape0 & Hmape);
    [now destruct df | now rewrite length_map, Hpred_len |].
  destruct (last_in_history _ df Hne Hwf) as (pt & _ & [Hy Hm] & Hlast).
  destruct (projects_total p mdl (len df) n0 _ n0 Xs _ HX Hp HXs_shape Hmdl
              (py_range 1 (H + 1)) (last_year_month df))
    as (preds & evs & Hproj).
  { now rewrite Hlast. }
  { rewrite Hlast; simpl; lia. }
  { rewrite Hlast, py_range_length. unfold month_ordinal, valid_month in *.
    simpl fst; simpl snd. lia. }
  destruct (echo_total df) as (hist & Hhist).
  { eapply Forall_impl; [| exact Hwf]. simpl. intros a [Ha1 Ha2].
    split; [lia | exact Ha2]. }
  do 2 eexists.
  eapply (forecast_run_intro req (inr raw) s H raw df); eauto.
  unfold len in *. lia.
Qed.

End Total.

(** ** From the [try] block to the route *)

Lemma predict_sales_forecast req db s body s' :
  forecast_run req db s body s' ->
  predict_sales req db s = ((body, 200), s').
Proof.
  intros Hrun. unfold predict_sales. now rewrite (try_200_run _ _ _ _ _ Hrun).
Qed.

Lemma predict_sales_200_inv req db s body s' :
  predict_sales req db s = ((body, 200), s') ->
  forecast_run req db s body s'.
Proof.
  unfold predict_sales; intros H0.
  destruct (predict_sales_try req db s) as [[e | resp] s1] eqn:Htry;
    inversion H0; subst.
  now apply try_200_inv.
Qed.

Lemma predict_sales_raises req db s e s1 :
  predict_sales_try req db s = (inl e, s1) ->
  predict_sales req db s =
    ((error_body e, 500), add_stdout ("Error in prediction: " ++ e)%string s1).
Proof. unfold predict_sales; now intros ->. Qed.

(** The components of a forecast run, for the horizon and the frame the
    request and the database determine. *)
Lemma forecast_run_inv req raw s body s' H df :
  forecast_run req (inr raw) s body s' ->
  parse_months_ahead req = inr H -> astype_frame raw = inr df ->
  exists p Xs mdl y_pred mse mape0 preds evs hist,
    1 <= H <= 12 /\ 6 <= len raw /\
    sk_scaler_fit (feature_matrix df) = inr p /\
    sk_scaler_transform p (feature_matrix df) = inr Xs /\
    sk_lr_fit Xs (map total_sales df) = inr mdl /\
    sk_lr_predict mdl Xs = inr y_pred /\
    mean_squared_error (map total_sales df) y_pred = inr mse /\
    mean_absolute_percentage_error (map total_sales df) y_pred = inr mape0 /\
    projects p mdl (len df) (py_range 1 (H + 1)) (last_year_month df)
      preds evs /\
    Forall2 echo_of df hist /\
    body = VDict [("predictions", VList preds);
                  ("historical_data", VList hist);
                  ("model_info",
                   model_info (len df) mse (fmul mape0 (of_int 100)))] /\
    s' = {| scaler_X := Some p; model := Some mdl;
            trace := trace s ++
                     EvReadSql :: EvScalerFit (feature_matrix df)
                       :: EvLrFit Xs (map total_sales df)
                       :: EvLrPredict mdl Xs :: evs;
            stdout := stdout s |}.
Proof.
  intros Hrun Hparse Hdf.
  inversion Hrun as [H0 raw0 df0 p Xs mdl y_pred mse mape0 preds evs hist
                       Hparse0 HH Hdb Hlen Hdf0 Hp HXs Hmdl Hpred Hmse Hmape
                       Hproj Hhist Hbody Hs'].
  inversion Hdb; subst raw0.
  rewrite Hparse in Hparse0; inversion Hparse0; subst H0.
  rewrite Hdf in Hdf0; inversion Hdf0; subst df0.
  exists p, Xs, mdl, y_pred, mse, mape0, preds, evs, hist.
  repeat split; try assumption; lia.
Qed.

(** The months of a forecast that was answered, whatever the runtime. *)
Lemma forecast_dates_when_answered req raw s body s' H df :
  parse_months_ahead req = inr H -> astype_frame raw = inr df ->
  valid_month (snd (last_year_month df)) ->
  predict_sales req (inr raw) s = ((body, 200), s') ->
  exists preds,
    list_field "predictions" body = Some preds /\
    List.length preds = Z.to_nat H /\
    map entry_year_month preds
      = map Some (projected_months (last_year_month df) (Z.to_nat H)).
Proof.
  intros Hparse Hdf Hvalid Hresp. apply predict_sales_200_inv in Hresp.
  destruct (forecast_run_inv _ _ _ _ _ _ _ Hresp Hparse Hdf)
    as (p & Xs & mdl & y_pred & mse & mape0 & preds & evs & hist &
        _ & _ & _ & _ & _ & _ & _ & _ & Hproj & _ & -> & _).
  assert (Hsteps : List.length (py_range 1 (H + 1)) = Z.to_nat H)
    by (rewrite py_range_length; f_equal; lia).
  exists preds. split; [reflexivity |]. split.
  - rewrite (projects_length _ _ _ _ _ _ _ Hproj). exact Hsteps.
  - rewrite (projects_dates _ _ _ _ _ _ _ Hproj Hvalid). now rewrite Hsteps.
Qed.

(** ** The claims *)



Lemma integer_horizon_refused req db s H :
  parse_months_ahead req = inr H -> H < 1 \/ 12 < H ->
  predict_sales req db s =
    ((error_body "months_ahead must be between 1 and 12", 400), s).
Proof.
  intros Hparse Hout. unfold predict_sales, predict_sales_try.
  rewrite (bind_ok _ _ s H s) by (unfold lift; now rewrite Hparse).
  assert (Hcheck : (H <? 1) || (H >? 12) = true).
  { apply orb_true_iff. rewrite Z.gtb_ltb.
    destruct Hout; [left | right]; apply Z.ltb_lt; lia. }
  now rewrite Hcheck.
Qed.


(** C3.  With a valid horizon and five rows or fewer the route answers 400
    with the insufficient-data message.  The only call made is the query:
    no scaler is fitted, no regression is fitted, nothing is predicted, and
    the body has none of the forecast fields. *)
Theorem short_history_rejected req raw s H :
  parse_months_ahead req = inr H -> 1 <= H <= 12 -> len raw <= 5 ->
  exists s',
    predict_sales req (inr raw) s =
      ((error_body "Not enough data for prediction", 400), s') /\
    trace s' = trace s ++ [EvReadSql] /\
    scaler_X s' = scaler_X s /\ model s' = model s /\
    stdout s' = stdout s /\
    dict_keys (error_body "Not enough data for prediction") = ["error"].
Proof.
  intros Hparse HH Hlen. exists (add_event EvReadSql s).
  repeat split.
  unfold predict_sales, predict_sales_try.
  rewrite (bind_ok _ _ s H s) by (unfold lift; now rewrite Hparse).
  rewrite horizon_in_range by exact HH.
  erewrite bind_ok by (unfold_monad; cbn; reflexivity).
  replace (len raw <? 6) with true by (symmetry; apply Z.ltb_lt; lia).
  reflexivity.
Qed.

Lemma forecast_run_frame req db s body s' :
  forecast_run req db s body s' ->
  exists H raw df,
    db = inr raw /\ parse_months_ahead req = inr H /\
    astype_frame raw = inr df.
Proof.
  intros [H raw df p Xs mdl y_pred mse mape0 preds evs hist
            Hparse _ Hdb _ Hdf _ _ _ _ _ _ _ _].
  exists H, raw, df. now repeat split.
Qed.

Lemma map_fst_combine_le {A B} (l : list A) (l' : list B) :
  List.length l = List.length l' -> map fst (combine l l') = l.
Proof.
  revert l'; induction l as [| a l IH]; intros [| b l'] Hlen;
    simpl in *; try discriminate; [reflexivity |].
  f_equal. apply IH. now inversion Hlen.
Qed.

Lemma time_index_column_eq df :
  time_index_column df = map Z.of_nat (seq 1 (List.length df)).
Proof.
  unfold time_index_column, py_range, len.
  replace (Z.to_nat (Z.of_nat (List.length df) + 1 - 1))
    with (List.length df) by lia.
  rewrite <- seq_shift, map_map. apply map_ext; intros k; lia.
Qed.

Lemma feature_matrix_time_index df :
  map (@hd_error R) (feature_matrix df)
    = map (fun k => Some (of_int (Z.of_nat k))) (seq 1 (List.length df)).
Proof.
  unfold feature_matrix. rewrite map_map.
  rewrite <- (map_map Z.of_nat (fun t => Some (of_int t))).
  rewrite <- time_index_column_eq.
  rewrite <- (map_fst_combine_le (time_index_column df) df)
    at 2 by apply time_index_column_length.
  rewrite map_map. apply map_ext. now intros [t pt].
Qed.

(** C4.  The [time_index] column of a history of [n] points is 1, 2, ...,
    [n] in series order, whatever the months are, and the rows of the
    feature matrix carry these values.  In a run that answers 200 the
    scaler is fitted on that matrix, and the feature vector of projection
    step [i], for [i] from 1 to the horizon, carries [n + i]. *)
Theorem time_index_continues df :
  time_index_column df = map Z.of_nat (seq 1 (List.length df)) /\
  map (@hd_error R) (feature_matrix df)
    = map (fun k => Some (of_int (Z.of_nat k))) (seq 1 (List.length df)) /\
  forall req raw s body s' H,
    parse_months_ahead req = inr H -> astype_frame raw = inr df ->
    predict_sales req (inr raw) s = ((body, 200), s') ->
    exists evs,
      trace s' = trace s ++ evs /\
      scaler_fits evs = [feature_matrix df] /\
      map (fun pX => time_index_of (snd pX)) (scaler_transforms evs)
        = map (fun i => Some (of_int (len df + i))) (py_range 1 (H + 1)).
Proof.
  split; [apply time_index_column_eq |].
  split; [apply feature_matrix_time_index |].
  intros req raw s body s' H Hparse Hdf Hresp.
  apply predict_sales_200_inv in Hresp.
  destruct (forecast_run_inv _ _ _ _ _ _ _ Hresp Hparse Hdf)
    as (p & Xs & mdl & y_pred & mse & mape0 & preds & evs & hist &
        _ & _ & _ & _ & _ & _ & _ & _ & Hproj & _ & _ & ->).
  eexists; split; [reflexivity |].
  destruct (projects_scaler _ _ _ _ _ _ _ Hproj) as (Hfits & _ & _).
  split; [simpl; now rewrite Hfits |].
  simpl. apply (projects_time_index _ _ _ _ _ _ _ Hproj).
Qed.



Lemma echo_calendar df hist :
  strftime_calendar ->
  (forall z, - 2 ^ 53 <= z <= 2 ^ 53 -> float_to_int (of_int z) = inr z) ->
  Forall (fun pt => 1000 <= year pt <= 9999 /\ valid_month (month pt)) df ->
  Forall2 echo_of df hist ->
  hist = map echo_entry df.
Proof.
  intros Hcal Hexact Hrange Hecho.
  induction Hecho as [| row v df hist (y & m & t & Ey & Em & Et & ->) _ IH].
  - reflexivity.
  - inversion Hrange as [| ? ? [Hy Hm] Hrest]; subst.
    unfold valid_month in Hm.
    rewrite Hexact in Ey, Em by lia.
    inversion Ey; inversion Em; subst y m.
    destruct (Hcal _ _ _ _ Hy Et) as [HB Hiso].
    simpl. rewrite <- IH by assumption.
    unfold echo_entry. now rewrite HB, Hiso.
Qed.

(** C7.  In a response with status 200, [historical_data] is the history
    entry by entry and in order: the year, the month and the total of each
    point as they came in, with the name of the month and the ISO date of
    its first day; and [training_data_points] is the number of points.
    The calendar text is the one [strftime] prints for four-digit years. *)
Theorem history_echoed req raw df s body s' :
  strftime_calendar ->
  (forall z, - 2 ^ 53 <= z <= 2 ^ 53 -> float_to_int (of_int z) = inr z) ->
  astype_frame raw = inr df ->
  Forall (fun pt => 1000 <= year pt <= 9999 /\ valid_month (month pt)) df ->
  predict_sales req (inr raw) s = ((body, 200), s') ->
  list_field "historical_data" body = Some (map echo_entry df) /\
  List.length (map echo_entry df) = List.length raw /\
  exists info,
    dict_get "model_info" body = Some info /\
    int_field "training_data_points" info = Some (len df).
Proof.
  intros Hcal Hexact Hdf Hrange Hresp.
  apply predict_sales_200_inv in Hresp.
  destruct (forecast_run_frame _ _ _ _ _ Hresp)
    as (H & raw' & df' & Hraw & Hparse & _).
  inversion Hraw; subst raw'.
  destruct (forecast_run_inv _ _ _ _ _ _ _ Hresp Hparse Hdf)
    as (p & Xs & mdl & y_pred & mse & mape0 & preds & evs & hist &
        _ & _ & _ & _ & _ & _ & _ & _ & _ & Hecho & -> & _).
  rewrite (echo_calendar df hist Hcal Hexact Hrange Hecho).
  split; [reflexivity |].
  split; [rewrite length_map; now apply astype_frame_length |].
  eexists; split; reflexivity.
Qed.

(** ** Two runs side by side *)

Lemma rt_bind {A B} P Q Q' (m : M A) (f : A -> M B) :
  rel_triple P m Q -> (forall a, rel_triple Q (f a) Q') ->
  rel_triple P (bind m f) Q'.
Proof.
  intros Hm Hf s1 s2 HP. unfold bind.
  destruct (Hm s1 s2 HP) as [Hres HQ].
  destruct (m s1) as [[e1 | a1] t1], (m s2) as [[e2 | a2] t2];
    simpl in *; try discriminate.
  - inversion Hres; subst e2. split; [reflexivity | discriminate].
  - inversion Hres; subst a2. apply Hf. now apply (HQ a1).
Qed.

Lemma rt_ret {A} P (a : A) : rel_triple P (ret a) P.
Proof. intros s1 s2 HP. now split. Qed.

Lemma rt_lift {A} P (r : exn + A) : rel_triple P (lift r) P.
Proof. intros s1 s2 HP. now split. Qed.

Lemma rt_modify P Q (f : state -> state) :
  (forall s1 s2, P s1 s2 -> Q (f s1) (f s2)) -> rel_triple P (modify f) Q.
Proof. intros Hf s1 s2 HP. split; [reflexivity | intros _ _; now apply Hf]. Qed.

Lemma rt_read_sql_query db :
  rel_triple any_states (read_sql_query db) any_states.
Proof. intros s1 s2 _. unfold_monad; cbn. now split. Qed.

Lemma rt_StandardScaler : rel_triple any_states StandardScaler same_scaler.
Proof. now apply rt_modify. Qed.

Lemma rt_scaler_fit_transform X :
  rel_triple same_scaler (scaler_fit_transform X) same_scaler.
Proof.
  intros s1 s2 _. unfold_monad; cbn.
  destruct (sk_scaler_fit X) as [e | p]; cbn; [split; [easy | discriminate] |].
  now split.
Qed.

Lemma rt_LinearRegression :
  rel_triple same_scaler LinearRegression same_objects.
Proof. apply rt_modify. intros s1 s2 Hs. now split. Qed.

Lemma rt_model_fit X y :
  rel_triple same_objects (model_fit X y) same_objects.
Proof.
  intros s1 s2 [Hs _]. unfold_monad; cbn.
  destruct (sk_lr_fit X y) as [e | m]; cbn; [split; [easy | discriminate] |].
  now repeat split.
Qed.

Lemma rt_model_predict X :
  rel_triple same_objects (model_predict X) same_objects.
Proof.
  intros s1 s2 [Hs Hm]. unfold_monad; cbn. rewrite <- Hm.
  destruct (model s1) as [m |] eqn:Em; cbn;
    [| split; [easy | discriminate]].
  split; [reflexivity |]. intros _ _. split; simpl; [exact Hs |].
  now rewrite Em, <- Hm.
Qed.

Lemma rt_scaler_transform X :
  rel_triple same_objects (scaler_transform X) same_objects.
Proof.
  intros s1 s2 [Hs Hm]. unfold_monad; cbn. rewrite <- Hs.
  destruct (scaler_X s1) as [p |] eqn:Ep; cbn;
    [| split; [easy | discriminate]].
  split; [reflexivity |]. intros _ _. split; simpl; [| exact Hm].
  now rewrite Ep, <- Hs.
Qed.

Lemma rt_index0 {A} P (l : list A) : rel_triple P (index0 l) P.
Proof. intros s1 s2 HP. destruct l; now split. Qed.

Lemma rt_iloc_last {A} P (l : list A) : rel_triple P (iloc_last l) P.
Proof. intros s1 s2 HP. unfold iloc_last. destruct (rev l); now split. Qed.

Lemma rt_for_each {A S} P (body : A -> S -> M S) xs :
  (forall x acc, rel_triple P (body x acc) P) ->
  forall acc, rel_triple P (for_each xs body acc) P.
Proof.
  intros Hbody. induction xs as [| x xs IH]; intros acc; simpl.
  - apply rt_ret.
  - eapply rt_bind; [apply Hbody | exact IH].
Qed.

Create HintDb side_by_side discriminated.

#[local] Hint Resolve rt_ret rt_lift rt_index0 rt_iloc_last
  rt_scaler_transform rt_model_predict rt_model_fit rt_scaler_fit_transform
  rt_StandardScaler rt_LinearRegression rt_read_sql_query : side_by_side.

#[local] Hint Extern 5 (rel_triple _ (bind _ _) _) =>
  eapply rt_bind; [| intros ?] : side_by_side.

#[local] Hint Extern 5 (rel_triple _ (match ?v with pair _ _ => _ end) _) =>
  destruct v : side_by_side.

Lemma rt_projection_step n i vars :
  rel_triple same_objects (projection_step n i vars) same_objects.
Proof.
  destruct vars as [[y m] acc]. unfold projection_step.
  destruct (m + 1 >? 12); eauto 20 with side_by_side.
Qed.

Lemma rt_history_step row acc :
  rel_triple same_objects (history_step row acc) same_objects.
Proof. unfold history_step. eauto 20 with side_by_side. Qed.

#[local] Hint Extern 1 (rel_triple _ (for_each _ (projection_step _) _) _) =>
  apply rt_for_each; intros; apply rt_projection_step : side_by_side.

#[local] Hint Extern 1 (rel_triple _ (for_each _ history_step _) _) =>
  apply rt_for_each; intros; apply rt_history_step : side_by_side.

Lemma rt_fit_and_project H df :
  rel_triple any_states (fit_and_project H df) same_objects.
Proof.
  unfold fit_and_project. cbv zeta. eauto 40 with side_by_side.
Qed.

Lemma try_same_inputs req1 req2 db1 db2 s1 s2 :
  parse_months_ahead req1 = parse_months_ahead req2 ->
  observed_series db1 = observed_series db2 ->
  fst (predict_sales_try req1 db1 s1) = fst (predict_sales_try req2 db2 s2).
Proof.
  intros Hparse Hseries.
  unfold predict_sales_try, read_sql_query, bind, lift, modify, ret.
  rewrite <- Hparse.
  destruct (parse_months_ahead req1) as [e | H]; [reflexivity |].
  destruct ((H <? 1) || (H >? 12)); [reflexivity |].
  destruct db1 as [e1 | raw1], db2 as [e2 | raw2]; simpl in Hseries;
    try discriminate.
  - now inversion Hseries.
  - inversion Hseries as [[Hlen Hframe]].
    cbn -[fit_and_project]. rewrite Hlen, Hframe.
    destruct (len raw2 <? 6); [reflexivity |].
    destruct (astype_frame raw2) as [e | df]; [reflexivity |].
    now apply (rt_fit_and_project H df).
Qed.

(** C8.  The response is a function of the horizon and of the series the
    route reads: two invocations whose [months_ahead] parse alike and
    whose databases hold the same series answer alike, whatever state
    earlier invocations left behind.  No call of the route consults
    anything else. *)
Theorem same_inputs_same_response req1 req2 db1 db2 s1 s2 :
  parse_months_ahead req1 = parse_months_ahead req2 ->
  observed_series db1 = observed_series db2 ->
  fst (predict_sales req1 db1 s1) = fst (predict_sales req2 db2 s2).
Proof.
  intros Hparse Hseries.
  pose proof (try_same_inputs req1 req2 db1 db2 s1 s2 Hparse Hseries) as Htry.
  unfold predict_sales.
  destruct (predict_sales_try req1 db1 s1) as [[e1 | r1] t1],
           (predict_sales_try req2 db2 s2) as [[e2 | r2] t2];
    simpl in *; inversion Htry; reflexivity.
Qed.

(** ** Failures *)

Lemma conversion_failure_raises req raw s H e :
  parse_months_ahead req = inr H -> 1 <= H <= 12 -> 6 <= len raw ->
  astype_frame raw = inl e ->
  predict_sales_try req (inr raw) s = (inl e, add_event EvReadSql s).
Proof.
  intros Hparse HH Hlen Hframe. unfold predict_sales_try.
  rewrite (bind_ok _ _ s H s) by (unfold lift; now rewrite Hparse).
  rewrite horizon_in_range by exact HH.
  erewrite bind_ok by (unfold_monad; cbn; reflexivity).
  replace (len raw <? 6) with false by (symmetry; apply Z.ltb_ge; lia).
  apply bind_raises. unfold lift. now rewrite Hframe.
Qed.

Lemma forecast_failure_surfaces req raw s H df e :
  parse_months_ahead req = inr H -> 1 <= H <= 12 -> 6 <= len raw ->
  astype_frame raw = inr df ->
  fst (fit_and_project H df (add_event EvReadSql s)) = inl e ->
  fst (predict_sales req (inr raw) s) = (error_body e, 500).
Proof.
  intros Hparse HH Hlen Hframe Hfail.
  unfold predict_sales, predict_sales_try.
  rewrite (bind_ok _ _ s H s) by (unfold lift; now rewrite Hparse).
  rewrite horizon_in_range by exact HH.
  erewrite bind_ok by (unfold_monad; cbn; reflexivity).
  replace (len raw <? 6) with false by (symmetry; apply Z.ltb_ge; lia).
  erewrite bind_ok by (unfold lift; rewrite Hframe; reflexivity).
  destruct (fit_and_project H df (add_event EvReadSql s)) as [r s1].
  simpl in Hfail. now subst r.
Qed.

Lemma fit_and_project_scaler_failure H df s e :
  sk_scaler_fit (feature_matrix df) = inl e ->
  fit_and_project H df s
    = (inl e, add_event (EvScalerFit (feature_matrix df)) (set_scaler None s)).
Proof.
  intros Hfit. unfold fit_and_project; unfold_monad; cbn. now rewrite Hfit.
Qed.

Lemma fit_and_project_regression_failure H df s p Xs e :
  sk_scaler_fit (feature_matrix df) = inr p ->
  sk_scaler_transform p (feature_matrix df) = inr Xs ->
  sk_lr_fit Xs (map total_sales df) = inl e ->
  fst (fit_and_project H df s) = inl e.
Proof.
  intros Hfit HXs Hlr. unfold fit_and_project; unfold_monad; cbn.
  rewrite Hfit; cbn. rewrite HXs; cbn. now rewrite Hlr.
Qed.

Lemma fit_and_project_prediction_failure H df s p Xs mdl e :
  sk_scaler_fit (feature_matrix df) = inr p ->
  sk_scaler_transform p (feature_matrix df) = inr Xs ->
  sk_lr_fit Xs (map total_sales df) = inr mdl ->
  sk_lr_predict mdl Xs = inl e ->
  fst (fit_and_project H df s) = inl e.
Proof.
  intros Hfit HXs Hlr Hpred. unfold fit_and_project; unfold_monad; cbn.
  rewrite Hfit; cbn. rewrite HXs; cbn. rewrite Hlr; cbn. now rewrite Hpred.
Qed.

(** The projection fits nothing and leaves both objects as they are,
    whether it completes or raises. *)
Lemma projection_step_keeps_objects n i vars s r s' :
  projection_step n i vars s = (r, s') ->
  exists evs, s' = with_trace s evs /\ scaler_fits evs = [].
Proof.
  destruct vars as [[y m] acc]. unfold projection_step; unfold_monad; cbn.
  intros H0.
  repeat match type of H0 with
         | context [match ?c with _ => _ end] =>
             lazymatch c with
             | context [match _ with _ => _ end] => fail
             | _ => destruct c; cbn in H0
             end
         end;
    inversion H0; subst;
    first [ exists []; split; [now rewrite with_trace_nil | reflexivity]
          | eexists [_]; split; reflexivity
          | eexists [_; _]; split;
            [unfold with_trace, add_event; simpl; rewrite <- app_assoc |];
            reflexivity ].
Qed.

Lemma projection_keeps_objects n steps :
  forall vars s r s',
    for_each steps (projection_step n) vars s = (r, s') ->
    exists evs, s' = with_trace s evs /\ scaler_fits evs = [].
Proof.
  induction steps as [| i steps IH]; intros vars s r s' H0; simpl in H0.
  - inversion H0; subst. exists []. now rewrite with_trace_nil.
  - unfold bind in H0.
    destruct (projection_step n i vars s) as [[e | vars1] s1] eqn:Hstep;
      apply projection_step_keeps_objects in Hstep as (evs1 & -> & Hfits1).
    + inversion H0; subst. now exists evs1.
    + apply IH in H0 as (evs2 & -> & Hfits2).
      exists (evs1 ++ evs2). rewrite with_trace_app. split; [reflexivity |].
      unfold scaler_fits in *. now rewrite flat_map_app, Hfits1, Hfits2.
Qed.



(** * More of the code *)

(** ** [get_db_engine] *)

Lemma prefix_drop p :
  forall s, String.prefix p s = true ->
    s = (p ++ drop (String.length p) s)%string.
Proof.
  induction p as [| a p IH]; intros s Hp; [reflexivity |].
  destruct s as [| b s]; simpl in Hp; [discriminate |].
  destruct (Ascii.ascii_dec a b) as [-> | _]; [| discriminate].
  simpl. f_equal. now apply IH.
Qed.

Lemma prefix_append p r : String.prefix p (p ++ r)%string = true.
Proof.
  induction p as [| a p IH]; simpl; [now destruct r |].
  destruct (Ascii.ascii_dec a a) as [_ | Hne]; [exact IH | now elim Hne].
Qed.

Lemma drop_append p r : drop (String.length p) (p ++ r)%string = r.
Proof. induction p as [| a p IH]; simpl; [reflexivity | exact IH]. Qed.

Lemma replace_first_at_head old new s :
  String.prefix old s = true ->
  replace_first old new s = (new ++ drop (String.length old) s)%string.
Proof. intros Hp. destruct s; cbn [replace_first]; now rewrite Hp. Qed.

Lemma database_url_heroku rest :
  database_url (Some ("postgres://" ++ rest)%string)
    = Some ("postgresql://" ++ rest)%string.
Proof.
  unfold database_url, startswith.
  rewrite prefix_append.
  rewrite replace_first_at_head by apply prefix_append.
  now rewrite drop_append.
Qed.

Lemma database_url_other url :
  startswith url "postgres://" = false ->
  database_url (Some url) = Some url.
Proof.
  intros Hp. unfold database_url. rewrite Hp.
  now rewrite andb_false_r.
Qed.

Lemma postgresql_is_not_postgres rest :
  startswith ("postgresql://" ++ rest)%string "postgres://" = false.
Proof. reflexivity. Qed.

Lemma database_url_cases url :
  (exists rest,
     url = ("postgres://" ++ rest)%string /\
     database_url (Some url) = Some ("postgresql://" ++ rest)%string) \/
  (startswith url "postgres://" = false /\
   database_url (Some url) = Some url).
Proof.
  destruct (startswith url "postgres://") eqn:Hp.
  - left. exists (drop 11 url).
    unfold startswith in Hp. pose proof (prefix_drop _ _ Hp) as Hurl.
    split; [exact Hurl |]. rewrite Hurl at 1. apply database_url_heroku.
  - right. split; [reflexivity | now apply database_url_other].
Qed.

(** X1.  [get_db_engine] changes the scheme and nothing else.  Every URL
    either begins with [postgres://], and then the URL handed to
    [create_engine] is [postgresql://] followed by the very rest of it
    (later occurrences of [postgres://] included), or it does not, and
    then it is handed over as it is. *)
Theorem database_url_changes_scheme_only url :
  (exists rest,
     url = ("postgres://" ++ rest)%string /\
     database_url (Some url) = Some ("postgresql://" ++ rest)%string) \/
  (startswith url "postgres://" = false /\
   database_url (Some url) = Some url).
Proof. exact (database_url_cases url). Qed.

(** X2.  The URL handed to [create_engine] never begins with
    [postgres://], and running the rewrite on its own result changes
    nothing; an unset variable stays unset. *)
Theorem database_url_normal_form env :
  database_url (database_url env) = database_url env /\
  (forall url, database_url env = Some url ->
     startswith url "postgres://" = false) /\
  (database_url env = None <-> env = None).
Proof.
  destruct env as [url |].
  - destruct (database_url_cases url)
      as [(rest & -> & Heq) | (Hp & Heq)]; rewrite Heq.
    + apply conj; [| apply conj].
      * apply database_url_other, postgresql_is_not_postgres.
      * intros u Hu; inversion Hu; subst u.
        apply postgresql_is_not_postgres.
      * split; discriminate.
    + apply conj; [| apply conj].
      * exact Heq.
      * intros u Hu; inversion Hu; now subst u.
      * split; discriminate.
  - apply conj; [reflexivity | apply conj].
    + discriminate.
    + split; reflexivity.
Qed.

(** X3.  A deployment whose [DATABASE_URL] is [postgres://rest] answers
    every request exactly as one whose [DATABASE_URL] is
    [postgresql://rest], whatever the engine library and the server do. *)
Theorem heroku_url_same_answers (engine : Type)
    (create_engine : option string -> list (string * string) -> exn + engine)
    (run_query : engine -> exn + list raw_row) rest req s :
  predict_sales_deployed engine create_engine run_query
    (Some ("postgres://" ++ rest)%string) req s
  = predict_sales_deployed engine create_engine run_query
      (Some ("postgresql://" ++ rest)%string) req s.
Proof.
  unfold predict_sales_deployed, database_of, get_db_engine.
  rewrite database_url_heroku.
  now rewrite (database_url_other _ (postgresql_is_not_postgres rest)).
Qed.

(** ** The three conversions *)

Lemma map_raising_inr_iff {A B} (f : A -> exn + B) l bs :
  map_raising f l = inr bs <-> Forall2 (fun a b => f a = inr b) l bs.
Proof.
  revert bs; induction l as [| a l IH]; intros bs; simpl.
  - split; intros H0; inversion H0; constructor.
  - destruct (f a) as [e | b] eqn:Ea.
    + split; [discriminate |]. intros H0; inversion H0; congruence.
    + destruct (map_raising f l) as [e | bs'] eqn:El.
      * split; [discriminate |]. intros H0; inversion H0; subst.
        match goal with Hl : Forall2 _ l _ |- _ => apply IH in Hl end.
        discriminate.
      * split; intros H0.
        -- inversion H0; subst. constructor; [exact Ea | now apply IH].
        -- inversion H0 as [| ? b0 ? bs0 Hb Hl]; subst.
           apply IH in Hl. inversion Hl; subst.
           rewrite Ea in Hb. now inversion Hb.
Qed.

Lemma map_raising_inl_iff {A B} (f : A -> exn + B) l e :
  map_raising f l = inl e <-> first_failure f l e.
Proof.
  induction l as [| a l IH]; simpl.
  - split; [discriminate |]. intros (l1 & x & l2 & Hl & _).
    now destruct l1.
  - destruct (f a) as [e0 | b] eqn:Ea.
    + split.
      * intros H0; inversion H0; subst e0.
        exists [], a, l. repeat split; [constructor | exact Ea].
      * intros ([| x l1] & y & l2 & Hl & Hok & Hy); inversion Hl; subst.
        -- congruence.
        -- inversion Hok as [| ? ? (b & Hb) _]; subst. congruence.
    + destruct (map_raising f l) as [e1 | bs] eqn:El.
      * split.
        -- intros H0; inversion H0; subst e1.
           destruct (proj1 IH eq_refl) as (l1 & y & l2 & -> & Hok & Hy).
           exists (a :: l1), y, l2. repeat split; [| exact Hy].
           constructor; [now exists b | exact Hok].
        -- intros ([| x l1] & y & l2 & Hl & Hok & Hy); inversion Hl; subst.
           ++ congruence.
           ++ inversion Hok; subst.
              apply IH. now exists l1, y, l2.
      * split; [discriminate |].
        intros ([| x l1] & y & l2 & Hl & Hok & Hy); inversion Hl; subst.
        -- congruence.
        -- inversion Hok; subst.
           assert (Hfail : first_failure f (l1 ++ y :: l2) e)
             by now exists l1, y, l2.
           apply IH in Hfail. discriminate.
Qed.

Lemma map_raising_all_convert {A B} (f : A -> exn + B) l :
  (exists bs, map_raising f l = inr bs) <-> all_convert f l.
Proof.
  unfold all_convert. induction l as [| a l IH]; simpl.
  - split; [constructor | now exists []].
  - destruct (f a) as [e | b] eqn:Ea.
    + split; [intros (bs & H0); discriminate |].
      intros H0; inversion H0 as [| ? ? (b & Hb) _]; congruence.
    + destruct (map_raising f l) as [e | bs] eqn:El.
      * split; [intros (bs & H0); discriminate |].
        intros H0; inversion H0 as [| ? ? _ Hl]; subst.
        apply IH in Hl as (bs & Hbs). discriminate.
      * split; [| now exists (b :: bs)].
        intros _. constructor; [now exists b |].
        apply IH. now exists bs.
Qed.

Lemma zip_columns raw :
  forall ys ms ts,
    Forall2 (fun c y => astype_int c = inr y) (map raw_year raw) ys ->
    Forall2 (fun c m => astype_int c = inr m) (map raw_month raw) ms ->
    Forall2 (fun c t => astype_float c = inr t) (map raw_total raw) ts ->
    Forall2 converts raw
      (map (fun '(y, (m, t)) => {| year := y; month := m; total_sales := t |})
           (combine ys (combine ms ts))).
Proof.
  induction raw as [| r raw IH]; intros ys ms ts Hy Hm Ht;
    inversion Hy; inversion Hm; inversion Ht; subst; simpl.
  - constructor.
  - constructor; [now repeat split | now apply IH].
Qed.

Lemma converts_columns raw df :
  Forall2 converts raw df ->
  map_raising astype_int (map raw_year raw) = inr (map year df) /\
  map_raising astype_int (map raw_month raw) = inr (map month df) /\
  map_raising astype_float (map raw_total raw) = inr (map total_sales df) /\
  map (fun '(y, (m, t)) => {| year := y; month := m; total_sales := t |})
      (combine (map year df) (combine (map month df) (map total_sales df)))
    = df.
Proof.
  induction 1 as [| r pt raw df (Hy & Hm & Ht) _ (IHy & IHm & IHt & IHdf)];
    simpl.
  - now repeat split.
  - rewrite Hy, Hm, Ht, IHy, IHm, IHt, IHdf. now destruct pt.
Qed.

Lemma astype_frame_rows_iff raw df :
  astype_frame raw = inr df <-> Forall2 converts raw df.
Proof.
  split.
  - unfold astype_frame; intros H0.
    destruct (map_raising astype_int (map raw_year raw)) as [e | ys] eqn:Ey;
      [discriminate |].
    destruct (map_raising astype_int (map raw_month raw)) as [e | ms] eqn:Em;
      [discriminate |].
    destruct (map_raising astype_float (map raw_total raw)) as [e | ts]
      eqn:Et; [discriminate |].
    inversion H0; subst.
    apply zip_columns; now apply map_raising_inr_iff.
  - intros Hrows. unfold astype_frame.
    destruct (converts_columns raw df Hrows) as (-> & -> & -> & ->).
    reflexivity.
Qed.

(** X4.  The three [astype] lines succeed exactly when every cell of
    every row converts, and the frame they leave is the rows in their
    order, each with its own three converted cells: no row is dropped,
    added or moved. *)
Theorem astype_frame_rows raw df :
  astype_frame raw = inr df <-> Forall2 converts raw df.
Proof. exact (astype_frame_rows_iff raw df). Qed.

(** X5.  When a conversion fails, the exception is that of the first
    failing cell in the order of the three lines, not of the rows: the
    first bad year if there is one; else the first bad month; else the
    first bad total. *)
Theorem astype_frame_first_error raw e :
  astype_frame raw = inl e <->
  first_failure astype_int (map raw_year raw) e \/
  (all_convert astype_int (map raw_year raw) /\
   first_failure astype_int (map raw_month raw) e) \/
  (all_convert astype_int (map raw_year raw) /\
   all_convert astype_int (map raw_month raw) /\
   first_failure astype_float (map raw_total raw) e).
Proof.
  unfold astype_frame.
  destruct (map_raising astype_int (map raw_year raw)) as [e1 | ys] eqn:Ey.
  - assert (Hbad : ~ all_convert astype_int (map raw_year raw)).
    { intros Hall. apply map_raising_all_convert in Hall as (bs & Hbs).
      congruence. }
    split.
    + intros H0; inversion H0; subst e1. left.
      now apply map_raising_inl_iff.
    + intros [Hy | [[Hall _] | [Hall _]]]; try (now elim Hbad).
      apply map_raising_inl_iff in Hy. congruence.
  - assert (Hys : all_convert astype_int (map raw_year raw))
      by (apply map_raising_all_convert; now exists ys).
    destruct (map_raising astype_int (map raw_month raw)) as [e2 | ms] eqn:Em.
    + assert (Hbad : ~ all_convert astype_int (map raw_month raw)).
      { intros Hall. apply map_raising_all_convert in Hall as (bs & Hbs).
        congruence. }
      split.
      * intros H0; inversion H0; subst e2. right; left.
        split; [exact Hys | now apply map_raising_inl_iff].
      * intros [Hy | [[_ Hm] | [_ [Hall _]]]].
        -- apply map_raising_inl_iff in Hy. congruence.
        -- apply map_raising_inl_iff in Hm. congruence.
        -- now elim Hbad.
    + assert (Hms : all_convert astype_int (map raw_month raw))
        by (apply map_raising_all_convert; now exists ms).
      destruct (map_raising astype_float (map raw_total raw)) as [e3 | ts]
        eqn:Et.
      * split.
        -- intros H0; inversion H0; subst e3. right; right.
           repeat split; try assumption. now apply map_raising_inl_iff.
        -- intros [Hy | [[_ Hm] | [_ [_ Ht]]]].
           ++ apply map_raising_inl_iff in Hy. congruence.
           ++ apply map_raising_inl_iff in Hm. congruence.
           ++ apply map_raising_inl_iff in Ht. congruence.
      * split; [discriminate |].
        intros [Hy | [[_ Hm] | [_ [_ Ht]]]].
        -- apply map_raising_inl_iff in Hy. congruence.
        -- apply map_raising_inl_iff in Hm. congruence.
        -- apply map_raising_inl_iff in Ht. congruence.
Qed.

(** ** Whatever the outcome: what a request leaves behind *)

Lemma history_step_any row acc s r s' :
  history_step row acc s = (r, s') -> s' = s.
Proof.
  unfold history_step; unfold_monad; cbn; intros H0.
  repeat match type of H0 with
         | context [match ?c with _ => _ end] =>
             lazymatch c with
             | context [match _ with _ => _ end] => fail
             | _ => destruct c; cbn in H0
             end
         end;
    now inversion H0.
Qed.

Lemma history_loop_any df :
  forall acc s r s', for_each df history_step acc s = (r, s') -> s' = s.
Proof.
  induction df as [| row df IH]; intros acc s r s' H0; simpl in H0.
  - now inversion H0.
  - unfold bind in H0.
    destruct (history_step row acc s) as [[e | acc1] s1] eqn:Hstep;
      apply history_step_any in Hstep as ->.
    + now inversion H0.
    + now apply IH in H0.
Qed.

Lemma projection_step_calls n i vars s r s' :
  projection_step n i vars s = (r, s') ->
  exists evs, s' = with_trace s evs /\ forallb loop_event evs = true.
Proof.
  destruct vars as [[y m] acc]. unfold projection_step; unfold_monad; cbn.
  intros H0.
  repeat match type of H0 with
         | context [match ?c with _ => _ end] =>
             lazymatch c with
             | context [match _ with _ => _ end] => fail
             | _ => destruct c; cbn in H0
             end
         end;
    inversion H0; subst;
    first [ exists []; split; [now rewrite with_trace_nil | reflexivity]
          | eexists [_]; split; reflexivity
          | eexists [_; _]; split;
            [unfold with_trace, add_event; simpl; rewrite <- app_assoc |];
            reflexivity ].
Qed.

Lemma projection_loop_calls n steps :
  forall vars s r s',
    for_each steps (projection_step n) vars s = (r, s') ->
    exists evs, s' = with_trace s evs /\ forallb loop_event evs = true.
Proof.
  induction steps as [| i steps IH]; intros vars s r s' H0; simpl in H0.
  - inversion H0; subst. exists []. now rewrite with_trace_nil.
  - unfold bind in H0.
    destruct (projection_step n i vars s) as [[e | vars1] s1] eqn:Hstep;
      apply projection_step_calls in Hstep as (evs1 & -> & Hloop1).
    + inversion H0; subst. now exists evs1.
    + apply IH in H0 as (evs2 & -> & Hloop2).
      exists (evs1 ++ evs2). rewrite with_trace_app. split; [reflexivity |].
      now rewrite forallb_app, Hloop1, Hloop2.
Qed.

Ltac any_step H :=
  match type of H with
  | context [match for_each ?xs (projection_step ?n) ?v ?s with _ => _ end] =>
      let E := fresh "Eloop" in
      destruct (for_each xs (projection_step n) v s)
        as [[? | [[? ?] ?]] ?] eqn:E;
      apply projection_loop_calls in E as (? & -> & ?); cbn in H
  | context [match for_each ?xs history_step ?v ?s with _ => _ end] =>
      let E := fresh "Ehist" in
      destruct (for_each xs history_step v s) as [[? | ?] ?] eqn:E;
      apply history_loop_any in E as ->; cbn in H
  | context [match ?c with _ => _ end] =>
      lazymatch c with
      | context [match _ with _ => _ end] => fail
      | context [for_each] => fail
      | _ => destruct c; cbn in H
      end
  end.

Lemma fit_and_project_any H df s r s' :
  fit_and_project H df s = (r, s') ->
  (exists evs,
     trace s' = trace s ++ evs /\ run_trace (EvReadSql :: evs)) /\
  stdout s' = stdout s /\
  (forall resp, r = inr resp -> snd resp = 200).
Proof.
  unfold fit_and_project; unfold_monad; cbn. intros H0.
  repeat any_step H0;
    inversion H0; subst; clear H0;
    (split; [| split; [reflexivity
                     | intros resp Hr; first [discriminate | now inversion Hr]]]);
    (eexists; split;
     [ simpl; rewrite <- ?app_assoc; simpl; reflexivity
     | first [ apply run_trace_scaler | apply run_trace_fit
             | apply run_trace_full; first [assumption | reflexivity] ] ]).
Qed.

Lemma try_any req db s r s' :
  predict_sales_try req db s = (r, s') ->
  (exists evs, trace s' = trace s ++ evs /\ run_trace evs) /\
  stdout s' = stdout s.
Proof.
  unfold predict_sales_try, read_sql_query, bind, lift, modify, ret.
  intros H0.
  destruct (parse_months_ahead req) as [e | H].
  { inversion H0; subst. split; [| reflexivity].
    exists []. split; [now rewrite app_nil_r | constructor]. }
  destruct ((H <? 1) || (H >? 12)).
  { inversion H0; subst. split; [| reflexivity].
    exists []. split; [now rewrite app_nil_r | constructor]. }
  destruct db as [e | raw]; cbn -[fit_and_project] in H0.
  { inversion H0; subst. split; [| reflexivity].
    exists [EvReadSql]. split; [reflexivity | constructor]. }
  destruct (len raw <? 6).
  { inversion H0; subst. split; [| reflexivity].
    exists [EvReadSql]. split; [reflexivity | constructor]. }
  destruct (astype_frame raw) as [e | df].
  { inversion H0; subst. split; [| reflexivity].
    exists [EvReadSql]. split; [reflexivity | constructor]. }
  apply fit_and_project_any in H0 as ((evs & Htrace & Hrun) & Hout & _).
  split; [| exact Hout].
  exists (EvReadSql :: evs). split; [| exact Hrun].
  rewrite Htrace. simpl. now rewrite <- app_assoc.
Qed.

Lemma loop_events_are_not_setup loop :
  forallb loop_event loop = true ->
  filter is_read loop = [] /\ scaler_fits loop = [] /\
  filter is_regression_fit loop = [].
Proof.
  induction loop as [| e loop IH]; simpl; [now repeat split |].
  intros Hall. apply andb_true_iff in Hall as [He Hrest].
  destruct (IH Hrest) as (Hr & Hs & Hf).
  destruct e; simpl in *; try discriminate; now repeat split.
Qed.

Lemma run_trace_counts evs :
  run_trace evs ->
  (List.length (filter is_read evs) <= 1)%nat /\
  (List.length (scaler_fits evs) <= 1)%nat /\
  (List.length (filter is_regression_fit evs) <= 1)%nat.
Proof.
  intros [| | X | X Xs y | X Xs y mdl loop Hloop]; simpl;
    try (repeat split; lia).
  destruct (loop_events_are_not_setup loop Hloop) as (-> & -> & ->).
  simpl. repeat split; lia.
Qed.

(** X6.  Validation comes first, the engine second.  Under any
    environment a request with an integer horizon outside 1..12 gets the
    400 answer and nothing is touched; and when the horizon is valid and
    creating the engine or running the query raises, the answer is 500
    with that exception's message, printed once, with no scaler or
    regression call and both objects as they were. *)
Theorem engine_failure_surfaces (engine : Type)
    (create_engine : option string -> list (string * string) -> exn + engine)
    (run_query : engine -> exn + list raw_row) env req s H :
  parse_months_ahead req = inr H ->
  (H < 1 \/ 12 < H ->
   predict_sales_deployed engine create_engine run_query env req s
     = ((error_body "months_ahead must be between 1 and 12", 400), s)) /\
  (forall e,
     1 <= H <= 12 ->
     database_of engine create_engine run_query env = inl e ->
     predict_sales_deployed engine create_engine run_query env req s
       = ((error_body e, 500),
          add_stdout ("Error in prediction: " ++ e)%string
            (add_event EvReadSql s))).
Proof.
  intros Hparse. unfold predict_sales_deployed. split.
  - intros Hout. now apply (integer_horizon_refused req _ s H).
  - intros e HH Hdb. rewrite Hdb. apply predict_sales_raises.
    unfold predict_sales_try.
    rewrite (bind_ok _ _ s H s) by (unfold lift; now rewrite Hparse).
    rewrite horizon_in_range by exact HH.
    apply bind_raises. unfold_monad; cbn. reflexivity.
Qed.

(** X7.  The route prints exactly when it answers 500, and then one
    line: [Error in prediction:] followed by the message of the body.
    On a 200 or a 400 answer standard output is as it was. *)
Theorem prints_exactly_on_500 req db s :
  (snd (fst (predict_sales req db s)) = 500 /\
   exists e,
     fst (fst (predict_sales req db s)) = error_body e /\
     stdout (snd (predict_sales req db s))
       = stdout s ++ [("Error in prediction: " ++ e)%string]) \/
  ((snd (fst (predict_sales req db s)) = 200 \/
    snd (fst (predict_sales req db s)) = 400) /\
   stdout (snd (predict_sales req db s)) = stdout s).
Proof.
  unfold predict_sales.
  destruct (predict_sales_try req db s) as [[e | resp] s1] eqn:Htry.
  - left. split; [reflexivity |]. exists e. split; [reflexivity |].
    apply try_any in Htry as [_ Hout]. simpl. now rewrite Hout.
  - right. pose proof (try_any _ _ _ _ _ Htry) as [_ Hout].
    split; [| exact Hout]. simpl.
    apply try_inr_inv in Htry as [[-> _] | [[-> _] | (body & -> & _)]];
      simpl; auto.
Qed.

(** X8.  Whatever the outcome, a request makes its calls in one order
    and each at most once: the query; then the scaler fit; then the
    regression fit; then the prediction on the history and the calls of
    the projection loop, which are transforms and predictions only.  So
    no request reads the database twice, fits the scaler twice or fits
    the regression twice, and nothing is fitted before the query. *)
Theorem request_calls_in_order req db s :
  exists evs,
    trace (snd (predict_sales req db s)) = trace s ++ evs /\
    run_trace evs /\
    (List.length (filter is_read evs) <= 1)%nat /\
    (List.length (scaler_fits evs) <= 1)%nat /\
    (List.length (filter is_regression_fit evs) <= 1)%nat.
Proof.
  unfold predict_sales.
  destruct (predict_sales_try req db s) as [[e | resp] s1] eqn:Htry;
    apply try_any in Htry as [(evs & Htrace & Hrun) _];
    exists evs; (split; [exact Htrace |]);
    (split; [exact Hrun | now apply run_trace_counts]).
Qed.

Lemma short_history_400 req raw s H :
  parse_months_ahead req = inr H -> 1 <= H <= 12 -> len raw < 6 ->
  predict_sales req (inr raw) s
    = ((error_body "Not enough data for prediction", 400),
       add_event EvReadSql s).
Proof.
  intros Hparse HH Hlen. unfold predict_sales, predict_sales_try.
  rewrite (bind_ok _ _ s H s) by (unfold lift; now rewrite Hparse).
  rewrite horizon_in_range by exact HH.
  erewrite bind_ok by (unfold_monad; cbn; reflexivity).
  replace (len raw <? 6) with true by (symmetry; apply Z.ltb_lt; lia).
  reflexivity.
Qed.

(** X9.  The answer is 400 in two situations and no other:
    [months_ahead] is an integer outside 1..12, or it is an integer from
    1 to 12 and the query returned fewer than six rows.  In particular
    text that is no integer, a failing database and cells that do not
    convert never give 400. *)
Theorem answers_400_iff req db s :
  snd (fst (predict_sales req db s)) = 400 <->
  exists H,
    parse_months_ahead req = inr H /\
    ((H < 1 \/ 12 < H) \/
     (1 <= H <= 12 /\ exists raw, db = inr raw /\ len raw < 6)).
Proof.
  split.
  - unfold predict_sales, predict_sales_try, read_sql_query,
      bind, lift, modify, ret.
    destruct (parse_months_ahead req) as [e | H]; [discriminate |].
    intros Hstatus. exists H. split; [reflexivity |].
    destruct ((H <? 1) || (H >? 12)) eqn:Hrange.
    { left. apply orb_true_iff in Hrange as [Hlo | Hhi].
      - left. now apply Z.ltb_lt.
      - right. rewrite Z.gtb_ltb in Hhi. now apply Z.ltb_lt. }
    apply orb_false_iff in Hrange as [Hlo Hhi].
    apply Z.ltb_ge in Hlo. rewrite Z.gtb_ltb in Hhi. apply Z.ltb_ge in Hhi.
    right. split; [lia |].
    destruct db as [e | raw]; cbn -[fit_and_project] in Hstatus;
      [discriminate |].
    exists raw. split; [reflexivity |].
    destruct (Z.ltb_spec (len raw) 6) as [Hlen | Hlen]; [exact Hlen |].
    destruct (astype_frame raw) as [e | df]; [discriminate |].
    destruct (fit_and_project H df (add_event EvReadSql s))
      as [[e | resp] s1] eqn:Hfit; [discriminate |].
    apply fit_and_project_any in Hfit as (_ & _ & H200).
    simpl in Hstatus. rewrite (H200 resp eq_refl) in Hstatus. discriminate.
  - intros (H & Hparse & [Hout | (HH & raw & -> & Hlen)]).
    + now rewrite (integer_horizon_refused req db s H Hparse Hout).
    + now rewrite (short_history_400 req raw s H Hparse HH Hlen).
Qed.

(** ** A shorter horizon *)

Lemma map_seq_shift {A} (f : nat -> A) n :
  forall start, map f (seq start n) = map (fun k => f (start + k)%nat) (seq 0 n).
Proof.
  induction n as [| n IH]; intros start; simpl; [reflexivity |].
  rewrite Nat.add_0_r. f_equal.
  rewrite IH, <- seq_shift, map_map.
  apply map_ext; intros k. f_equal. lia.
Qed.

Lemma py_range_split a b c :
  a <= b <= c -> py_range a c = py_range a b ++ py_range b c.
Proof.
  intros Habc. unfold py_range.
  replace (Z.to_nat (c - a))
    with (Z.to_nat (b - a) + Z.to_nat (c - b))%nat by lia.
  rewrite seq_app, map_app. f_equal. simpl.
  rewrite (map_seq_shift _ (Z.to_nat (c - b)) (Z.to_nat (b - a))).
  apply map_ext; intros k. lia.
Qed.

Lemma projects_app_inv p mdl n a b :
  forall ym vs evs,
    projects p mdl n (a ++ b) ym vs evs ->
    exists vs1 evs1 vs2 evs2 ym',
      projects p mdl n a ym vs1 evs1 /\
      projects p mdl n b ym' vs2 evs2 /\
      vs = vs1 ++ vs2 /\ evs = evs1 ++ evs2.
Proof.
  induction a as [| i a IH]; intros ym vs evs Hproj; simpl in Hproj.
  - exists [], [], vs, evs, ym. repeat split; [constructor | exact Hproj].
  - inversion Hproj as [| ? ? ? xs ys y_hat t vs' evs' Ext Eys Ehd Et Hrest];
      subst.
    apply IH in Hrest as (vs1 & evs1 & vs2 & evs2 & ym' & Ha & Hb & -> & ->).
    eexists (_ :: vs1), (_ :: _ :: evs1), vs2, evs2, ym'.
    repeat split; [| exact Hb].
    eapply projects_cons; eauto.
Qed.

Lemma firstn_length_app {A} (l1 l2 : list A) :
  firstn (List.length l1) (l1 ++ l2) = l1.
Proof.
  induction l1 as [| a l1 IH]; simpl; [now destruct l2 | now rewrite IH].
Qed.

(** X10.  Asking for fewer months gives the beginning of the longer
    forecast.  If the route answers 200 for a horizon [H], then for every
    horizon [k] from 1 to [H] it answers 200 on the same rows, its
    predictions are the first [k] predictions of the longer answer, and
    the echoed history and the model information are the same: no
    prediction depends on how many follow it. *)
Theorem shorter_horizon_is_prefix reqH reqk raw s1 s2 bodyH s1' H k :
  parse_months_ahead reqH = inr H ->
  parse_months_ahead reqk = inr k ->
  1 <= k <= H ->
  predict_sales reqH (inr raw) s1 = ((bodyH, 200), s1') ->
  exists bodyk s2' predsH,
    predict_sales reqk (inr raw) s2 = ((bodyk, 200), s2') /\
    list_field "predictions" bodyH = Some predsH /\
    list_field "predictions" bodyk = Some (firstn (Z.to_nat k) predsH) /\
    dict_get "historical_data" bodyk = dict_get "historical_data" bodyH /\
    dict_get "model_info" bodyk = dict_get "model_info" bodyH.
Proof.
  intros HparseH Hparsek Hk Hresp.
  apply predict_sales_200_inv in Hresp.
  destruct (forecast_run_frame _ _ _ _ _ Hresp)
    as (H' & raw' & df & Hraw & _ & Hdf).
  inversion Hraw; subst raw'.
  destruct (forecast_run_inv _ _ _ _ _ _ _ Hresp HparseH Hdf)
    as (p & Xs & mdl & y_pred & mse & mape0 & preds & evs & hist &
        HH & Hlen & Hp & HXs & Hmdl & Hpred & Hmse & Hmape &
        Hproj & Hecho & -> & _).
  rewrite (py_range_split 1 (k + 1) (H + 1)) in Hproj by lia.
  apply projects_app_inv in Hproj
    as (vs1 & evs1 & vs2 & evs2 & ym' & Ha & _ & -> & _).
  assert (Hcount : List.length vs1 = Z.to_nat k).
  { rewrite (projects_length _ _ _ _ _ _ _ Ha), py_range_length.
    f_equal; lia. }
  eexists _, _, (vs1 ++ vs2). split.
  - apply predict_sales_forecast.
    eapply (forecast_run_intro reqk (inr raw) s2 k raw df); eauto; lia.
  - rewrite <- Hcount, firstn_length_app. now repeat split.
Qed.

(** ** The calendar of the forecast *)

Lemma projects_calendar p mdl n steps ym vs evs :
  strftime_calendar ->
  projects p mdl n steps ym vs evs ->
  Forall (fun v => exists y m,
            entry_year_month v = Some (y, m) /\
            (1000 <= y <= 9999 ->
             str_field "date" v = Some (iso_date y m 1) /\
             str_field "month_name" v = Some (month_name_of m))) vs.
Proof.
  intros Hcal.
  induction 1 as [ym | i steps ym xs ys y_hat t vs evs _ _ _ Et _ IH];
    constructor; [| exact IH].
  exists (fst (next_month ym)), (snd (next_month ym)).
  split; [reflexivity |]. intros Hy.
  destruct (Hcal _ _ _ _ Hy Et) as [HB Hiso].
  split; simpl; unfold str_field; simpl; congruence.
Qed.

(** X11.  In a 200 answer every forecast entry carries its own year and
    month, and, when the year has four digits, its [date] is the ISO date
    of the first day of that very month and its [month_name] the name of
    that month: the text of an entry never disagrees with its numbers. *)
Theorem forecast_entries_calendar req db s body s' :
  strftime_calendar ->
  predict_sales req db s = ((body, 200), s') ->
  exists preds,
    list_field "predictions" body = Some preds /\
    Forall (fun v => exists y m,
              entry_year_month v = Some (y, m) /\
              (1000 <= y <= 9999 ->
               str_field "date" v = Some (iso_date y m 1) /\
               str_field "month_name" v = Some (month_name_of m))) preds.
Proof.
  intros Hcal Hresp. apply predict_sales_200_inv in Hresp.
  destruct Hresp as [H raw df p Xs mdl y_pred mse mape0 preds evs hist
                       _ _ _ _ _ _ _ _ _ _ _ Hproj _].
  exists preds. split; [reflexivity |].
  now apply (projects_calendar _ _ _ _ _ _ _ Hcal Hproj).
Qed.

Lemma months_after_step ym j :
  valid_month (snd ym) -> 1 <= j <= 12 ->
  months_after j ym = step_months ym j.
Proof.
  destruct ym as [y m]. unfold valid_month, months_after, step_months,
    month_ordinal. cbn [fst snd]. intros Hm Hj.
  destruct (Z.gtb_spec (m + j) 12); f_equal;
    Z.to_euclidean_division_equations; lia.
Qed.

Lemma py_range_from_one n :
  py_range 1 (Z.of_nat n + 1) = map Z.of_nat (seq 1 n).
Proof.
  unfold py_range.
  replace (Z.to_nat (Z.of_nat n + 1 - 1)) with n by lia.
  rewrite <- seq_shift, map_map. apply map_ext; intros k; lia.
Qed.

(** X12.  In a 200 answer the months of the forecast are given without
    any division: entry [j] (from 1) is month [m + j] of the last
    historical year when that is at most 12, and month [m + j - 12] of
    the next year otherwise.  The forecast changes year at most once and
    never reaches past the year after the history. *)
Theorem forecast_within_next_year req raw s body s' H df :
  parse_months_ahead req = inr H -> astype_frame raw = inr df ->
  valid_month (snd (last_year_month df)) ->
  predict_sales req (inr raw) s = ((body, 200), s') ->
  exists preds,
    list_field "predictions" body = Some preds /\
    map entry_year_month preds
      = map (fun j => Some (step_months (last_year_month df) j))
            (py_range 1 (H + 1)) /\
    Forall (fun v => exists y m,
              entry_year_month v = Some (y, m) /\ valid_month m /\
              fst (last_year_month df) <= y <= fst (last_year_month df) + 1)
           preds.
Proof.
  intros Hparse Hdf Hvalid Hresp.
  pose proof (predict_sales_200_inv _ _ _ _ _ Hresp) as Hrun.
  destruct (forecast_run_inv _ _ _ _ _ _ _ Hrun Hparse Hdf)
    as (p & Xs & mdl & y_pred & mse & mape0 & preds0 & evs & hist &
        HH & _).
  destruct (forecast_dates_when_answered _ _ _ _ _ _ _ Hparse Hdf Hvalid Hresp)
    as (preds & Hfield & _ & Hdates).
  assert (Hmap : map entry_year_month preds
                 = map (fun j => Some (step_months (last_year_month df) j))
                       (py_range 1 (H + 1))).
  { rewrite Hdates. unfold projected_months.
    replace H with (Z.of_nat (Z.to_nat H)) at 2 by lia.
    rewrite py_range_from_one, !map_map.
    apply map_ext_in. intros j Hj. apply in_seq in Hj.
    f_equal. apply months_after_step; [exact Hvalid | lia]. }
  exists preds. split; [exact Hfield |]. split; [exact Hmap |].
  assert (Hall : Forall (fun o => exists y m,
                           o = Some (y, m) /\ valid_month m /\
                           fst (last_year_month df) <= y
                             <= fst (last_year_month df) + 1)
                        (map entry_year_month preds)).
  { rewrite Hmap. apply Forall_map, Forall_forall. intros j Hj.
    unfold py_range in Hj. apply in_map_iff in Hj as (i & <- & Hi).
    apply in_seq in Hi.
    destruct (last_year_month df) as [y m]. unfold valid_month in *.
    unfold step_months. cbn [fst snd] in *.
    destruct (Z.gtb_spec (m + (1 + Z.of_nat i)) 12);
      eexists _, _; (split; [reflexivity |]); cbn [fst snd]; lia. }
  exact (proj1 (Forall_map _ _ _) Hall).
Qed.

(** ** The regression *)

Lemma projects_scaled_then_predicted p mdl n steps ym vs evs :
  projects p mdl n steps ym vs evs -> scaled_then_predicted p mdl evs.
Proof.
  induction 1 as [ym | i steps ym xs ys y_hat t vs evs Ext _ _ _ _ IH];
    [constructor |].
  now apply stp_cons.
Qed.

(** X13.  In a 200 answer the regression is fitted once, on the scaled
    feature matrix of the history against the totals in series order.
    Every later prediction is made by the model that fit returned, and in
    the projection each prediction is made on what the scaler returned
    for that step's vector, never on the unscaled vector.  The model
    object still holds that model when the run ends. *)
Theorem regression_fitted_once_on_scaled req db s body s' :
  predict_sales req db s = ((body, 200), s') ->
  exists raw df p Xs mdl projection,
    db = inr raw /\ astype_frame raw = inr df /\
    sk_scaler_fit (feature_matrix df) = inr p /\
    sk_scaler_transform p (feature_matrix df) = inr Xs /\
    sk_lr_fit Xs (map total_sales df) = inr mdl /\
    trace s' = trace s ++
               [EvReadSql; EvScalerFit (feature_matrix df);
                EvLrFit Xs (map total_sales df); EvLrPredict mdl Xs]
               ++ projection /\
    scaled_then_predicted p mdl projection /\
    filter is_regression_fit projection = [] /\
    model s' = Some mdl.
Proof.
  intros Hresp. apply predict_sales_200_inv in Hresp.
  destruct Hresp as [H raw df p Xs mdl y_pred mse mape0 preds evs hist
                       _ _ Hdb _ Hdf Hp HXs Hmdl _ _ _ Hproj _].
  exists raw, df, p, Xs, mdl, evs.
  repeat apply conj; try assumption; try reflexivity.
  - now apply (projects_scaled_then_predicted _ _ _ _ _ _ _ Hproj).
  - pose proof (projects_scaled_then_predicted _ _ _ _ _ _ _ Hproj) as Hpairs.
    clear Hproj. induction Hpairs; [reflexivity | exact IHHpairs].
Qed.

(** X14.  The two metrics of a 200 answer are in-sample: [mse] and
    [mape] are computed from the totals of the history and from the
    predictions of the fitted model on the very matrix it was fitted on,
    the [mape] times 100, each rounded to 2 digits. *)
Theorem metrics_are_in_sample req db s body s' :
  predict_sales req db s = ((body, 200), s') ->
  exists raw df p Xs mdl y_pred mse ratio info,
    db = inr raw /\ astype_frame raw = inr df /\
    sk_scaler_fit (feature_matrix df) = inr p /\
    sk_scaler_transform p (feature_matrix df) = inr Xs /\
    sk_lr_fit Xs (map total_sales df) = inr mdl /\
    sk_lr_predict mdl Xs = inr y_pred /\
    mean_squared_error (map total_sales df) y_pred = inr mse /\
    mean_absolute_percentage_error (map total_sales df) y_pred = inr ratio /\
    dict_get "model_info" body = Some info /\
    float_field "mse" info = Some (py_round mse 2) /\
    float_field "mape" info = Some (py_round (fmul ratio (of_int 100)) 2) /\
    str_field "type" info = Some "Linear Regression".
Proof.
  intros Hresp. apply predict_sales_200_inv in Hresp.
  destruct Hresp as [H raw df p Xs mdl y_pred mse mape0 preds evs hist
                       _ _ Hdb _ Hdf Hp HXs Hmdl Hpred Hmse Hmape _ _].
  exists raw, df, p, Xs, mdl, y_pred, mse, mape0. eexists.
  repeat apply conj; try eassumption; reflexivity.
Qed.

(** ** The feature matrix and what the forecast reads of the history *)

Lemma combine_map_r {A B C} (f : B -> C) (l : list A) :
  forall l', combine l (map f l')
             = map (fun ab => (fst ab, f (snd ab))) (combine l l').
Proof.
  induction l as [| a l IH]; intros [| b l']; simpl; try reflexivity.
  now rewrite IH.
Qed.

Lemma feature_matrix_months df :
  feature_matrix df
    = map (fun tm => feature_row (fst tm) (snd tm))
          (combine (py_range 1 (len (map month df) + 1)) (map month df)).
Proof.
  unfold feature_matrix, time_index_column, len.
  rewrite length_map, combine_map_r, map_map.
  apply map_ext. now intros [t pt].
Qed.

Lemma nth_error_combine_seq {A} (l : list A) :
  forall start k a,
    nth_error l k = Some a ->
    nth_error (combine (seq start (List.length l)) l) k
      = Some ((start + k)%nat, a).
Proof.
  induction l as [| b l IH]; intros start [| k] a Hk; simpl in *;
    try discriminate.
  - inversion Hk; subst. now rewrite Nat.add_0_r.
  - rewrite (IH (S start) k a Hk). do 2 f_equal. lia.
Qed.

Lemma combine_map_l {A B C} (g : A -> C) (l : list A) :
  forall l' : list B,
    combine (map g l) l'
      = map (fun ab => (g (fst ab), snd ab)) (combine l l').
Proof.
  induction l as [| a l IH]; intros [| b l']; simpl; try reflexivity.
  now rewrite IH.
Qed.

Lemma feature_matrix_nth df k pt :
  nth_error df k = Some pt ->
  nth_error (feature_matrix df) k
    = Some (feature_row (Z.of_nat k + 1) (month pt)).
Proof.
  intros Hk. unfold feature_matrix.
  rewrite time_index_column_eq, combine_map_l, map_map, nth_error_map.
  rewrite (nth_error_combine_seq df 1 k pt Hk). simpl.
  do 2 f_equal. lia.
Qed.

(** X15.  The feature matrix has one row per historical point, in series
    order, and row [k] (from 0) is exactly the float of [k + 1], the sine
    and the cosine of the month of point [k]: positions and months are
    never paired across rows. *)
Theorem feature_rows_align df :
  List.length (feature_matrix df) = List.length df /\
  forall k pt,
    nth_error df k = Some pt ->
    nth_error (feature_matrix df) k
      = Some [of_int (Z.of_nat k + 1); month_sin (month pt);
              month_cos (month pt)].
Proof.
  split; [apply feature_matrix_shape |].
  intros k pt Hk. now apply feature_matrix_nth.
Qed.

Lemma projects_functional p mdl n steps ym vs evs :
  projects p mdl n steps ym vs evs ->
  forall vs' evs',
    projects p mdl n steps ym vs' evs' -> vs = vs' /\ evs = evs'.
Proof.
  induction 1 as [ym | i steps ym xs ys y_hat t vs evs Ext Eys Ehd Et _ IH];
    intros vs' evs' Hother.
  - now inversion Hother.
  - inversion Hother
      as [| ? ? ? xs' ys' y_hat' t' vs0 evs0 Ext' Eys' Ehd' Et' Hrest];
      subst.
    rewrite Ext in Ext'; inversion Ext'; subst xs'.
    rewrite Eys in Eys'; inversion Eys'; subst ys'.
    rewrite Ehd in Ehd'; inversion Ehd'; subst y_hat'.
    rewrite Et in Et'; inversion Et'; subst t'.
    destruct (IH _ _ Hrest) as [-> ->]. now split.
Qed.

(** X16.  Of the history the forecast reads the months, the totals, the
    number of points and the last (year, month), and nothing else: two
    histories that agree on these, whatever the years of their earlier
    rows (a gap of years included), get the same predictions and the same
    model information for the same request. *)
Theorem forecast_ignores_earlier_years req raw1 raw2 df1 df2
    s1 s2 body1 body2 s1' s2' :
  astype_frame raw1 = inr df1 -> astype_frame raw2 = inr df2 ->
  map month df1 = map month df2 ->
  map total_sales df1 = map total_sales df2 ->
  last_year_month df1 = last_year_month df2 ->
  predict_sales req (inr raw1) s1 = ((body1, 200), s1') ->
  predict_sales req (inr raw2) s2 = ((body2, 200), s2') ->
  dict_get "predictions" body1 = dict_get "predictions" body2 /\
  dict_get "model_info" body1 = dict_get "model_info" body2.
Proof.
  intros Hdf1 Hdf2 Hmonths Htotals Hlast Hresp1 Hresp2.
  apply predict_sales_200_inv in Hresp1, Hresp2.
  destruct (forecast_run_frame _ _ _ _ _ Hresp1) as (H & ? & ? & _ & Hparse & _).
  destruct (forecast_run_inv _ _ _ _ _ _ _ Hresp1 Hparse Hdf1)
    as (p & Xs & mdl & y_pred & mse & mape0 & preds & evs & hist &
        _ & _ & Hp & HXs & Hmdl & Hpred & Hmse & Hmape & Hproj & _ & -> & _).
  destruct (forecast_run_inv _ _ _ _ _ _ _ Hresp2 Hparse Hdf2)
    as (p' & Xs' & mdl' & y_pred' & mse' & mape0' & preds' & evs' & hist' &
        _ & _ & Hp' & HXs' & Hmdl' & Hpred' & Hmse' & Hmape' & Hproj' & _
        & -> & _).
  assert (HX : feature_matrix df2 = feature_matrix df1)
    by now rewrite !feature_matrix_months, Hmonths.
  assert (Hlen : len df2 = len df1).
  { unfold len. rewrite <- (length_map month df2), <- Hmonths.
    now rewrite length_map. }
  rewrite HX, <- ?Htotals, ?Hlen, <- ?Hlast in *.
  rewrite Hp in Hp'; inversion Hp'; subst p'.
  rewrite HXs in HXs'; inversion HXs'; subst Xs'.
  rewrite Hmdl in Hmdl'; inversion Hmdl'; subst mdl'.
  rewrite Hpred in Hpred'; inversion Hpred'; subst y_pred'.
  rewrite Hmse in Hmse'; inversion Hmse'; subst mse'.
  rewrite Hmape in Hmape'; inversion Hmape'; subst mape0'.
  destruct (projects_functional _ _ _ _ _ _ _ Hproj _ _ Hproj') as [-> _].
  now split.
Qed.

End Properties.

(** ** The reference runtime meets what the properties ask *)

Module ReferenceFacts.

Import Reference.

Lemma ref_fit_params X p :
  ref_scaler_fit X = inr p -> List.length p = 3%nat.
Proof.
  unfold ref_scaler_fit. destruct X; [discriminate |].
  intros H0; inversion H0; reflexivity.
Qed.

Lemma ref_transform_shape p n X :
  List.length p = 3%nat -> shape n X ->
  shape n (map (fun r => map (fun '(x, (mu, sc)) => qdiv (qsub x mu) sc)
                             (combine r p)) X).
Proof.
  intros Hp [Hlen Hrows]. split; [now rewrite length_map |].
  apply Forall_map. eapply Forall_impl; [| exact Hrows].
  intros r Hr. simpl in *. rewrite length_map, length_combine. lia.
Qed.

Lemma ref_total : @runtime_total ref_runtime 1 9999.
Proof.
  constructor; simpl.
  - intros n [| r X] [Hlen _]; [discriminate |]. eexists; reflexivity.
  - intros n0 X0 p n X _ Hp HX. eexists; split; [reflexivity |].
    apply ref_transform_shape; [now apply (ref_fit_params X0) | exact HX].
  - intros n [| r X] y [Hlen _] _; [discriminate |]. eexists; reflexivity.
  - intros n0 X0 y0 m n X _ _ [Hlen _]. eexists; split; [reflexivity |].
    now rewrite length_map.
  - intros y y' _ _. eexists; reflexivity.
  - intros y y' _ _. eexists; reflexivity.
  - intros y m Hy Hm. unfold ref_Timestamp.
    replace ((1 <=? y) && (y <=? 9999)) with true
      by (symmetry; apply andb_true_iff; split; apply Z.leb_le; lia).
    replace ((1 <=? m) && (m <=? 12)) with true
      by (symmetry; apply andb_true_iff; split; apply Z.leb_le; lia).
    eexists; reflexivity.
  - split; lia.
  - intros z _. unfold truncate; simpl. now rewrite Z.quot_1_r.
Qed.

Lemma ref_float_exact z :
  - 2 ^ 53 <= z <= 2 ^ 53 ->
  @float_to_int ref_runtime (@of_int ref_runtime z) = inr z.
Proof. apply (float_int_exact 1 9999 ref_total). Qed.

Lemma ref_calendar : @strftime_calendar ref_runtime.
Proof.
  intros y m d t _ Ht. simpl in *. unfold ref_Timestamp in Ht.
  destruct (negb ((1 <=? y) && (y <=? 9999))); [discriminate |].
  destruct (negb ((1 <=? m) && (m <=? 12))); [discriminate |].
  destruct (negb ((1 <=? d) && (d <=? 28))); [discriminate |].
  inversion Ht; subst t. split; reflexivity.
Qed.

(** In exact arithmetic a value rounded to 2 digits is a number of
    hundredths. *)
Lemma ref_rounded_hundredths x :
  @rounded_to ref_runtime 2 x -> exists k : Z, (x == k # 100)%Q.
Proof.
  intros [raw ->]. simpl. unfold ref_round. eexists. apply Qred_correct.
Qed.


Lemma hist_2023_well_formed :
  @well_formed_history ref_runtime 1 9999 hist_2023.
Proof. repeat constructor; simpl; lia. Qed.

End ReferenceFacts.

(** ** The properties at work on the reference runtime *)

Module Scenario.

Import Reference ReferenceFacts.

Lemma run_2023_status : snd (fst run_2023) = 200.
Proof. vm_compute. reflexivity. Qed.

Lemma run_2023_answers_200 :
  predict_sales (ask "2") (inr sales_2023) fresh
    = ((fst (fst run_2023), 200), snd run_2023).
Proof.
  pose proof run_2023_status as Hstatus. unfold run_2023 in *.
  destruct (predict_sales (ask "2") (inr sales_2023) fresh) as [[body st] s'].
  simpl in *. now subst st.
Qed.

(** The predictions of the scenario are numbers of hundredths. *)
Lemma run_2023_in_hundredths :
  exists preds,
    list_field "predictions" (fst (fst run_2023)) = Some preds /\
    Forall (fun v => exists x k,
              float_field "predicted_sales" v = Some x /\
              (x == k # 100)%Q) preds.
Proof.
  pose proof (predict_sales_200_inv _ _ _ _ _ run_2023_answers_200) as Hrun.
  destruct Hrun as [H raw df p Xs mdl y_pred mse mape0 preds evs hist
                      _ _ _ _ _ _ _ _ _ _ _ Hproj _].
  exists preds. split; [reflexivity |].
  eapply Forall_impl; [| apply (projects_rounded _ _ _ _ _ _ _ Hproj)].
  intros v (x & Hx & Hround).
  destruct (ref_rounded_hundredths x Hround) as (k & Hk).
  now exists x, k.
Qed.

(** Two months ahead of June 2023: July and August 2023. *)
Example scenario_two_months :
  exists preds,
    list_field "predictions" (fst (fst run_2023)) = Some preds /\
    map entry_year_month preds = [Some (2023, 7); Some (2023, 8)].
Proof.
  destruct (forecast_dates_when_answered (ask "2") sales_2023 fresh
              (fst (fst run_2023)) (snd run_2023) 2 hist_2023)
    as (preds & Hfield & _ & Hdates).
  - reflexivity.
  - reflexivity.
  - unfold valid_month; simpl; lia.
  - exact run_2023_answers_200.
  - exists preds. split; [exact Hfield | exact Hdates].
Qed.

(** Twelve months ahead of June 2023: the twelfth is June 2024. *)
Example scenario_twelfth_month :
  exists body s' preds,
    predict_sales (ask "12") (inr sales_2023) fresh = ((body, 200), s') /\
    list_field "predictions" body = Some preds /\
    nth_error (map entry_year_month preds) 11 = Some (Some (2024, 6)).
Proof.
  destruct (forecast_total 1 9999 ref_total (ask "12") sales_2023 fresh 12
              hist_2023) as (body & s' & Hrun).
  - reflexivity.
  - lia.
  - reflexivity.
  - unfold len; simpl; lia.
  - exact hist_2023_well_formed.
  - apply predict_sales_forecast in Hrun.
    destruct (forecast_dates_when_answered (ask "12") sales_2023 fresh
                body s' 12 hist_2023) as (preds & Hfield & _ & Hdates);
      [reflexivity | reflexivity | unfold valid_month; simpl; lia
      | exact Hrun |].
    exists body, s', preds. repeat apply conj; try assumption.
    rewrite Hdates. reflexivity.
Qed.



(** Five months of history, three months asked. *)
Lemma short_history_rejected_witness :
  exists s',
    predict_sales (ask "3") (inr (firstn 5 sales_2023)) fresh =
      ((error_body "Not enough data for prediction", 400), s') /\
    trace s' = trace fresh ++ [EvReadSql] /\
    scaler_X s' = scaler_X fresh /\ model s' = model fresh /\
    stdout s' = stdout fresh /\
    dict_keys (error_body "Not enough data for prediction") = ["error"].
Proof.
  apply (short_history_rejected (ask "3") (firstn 5 sales_2023) fresh 3).
  - reflexivity.
  - lia.
  - unfold len; simpl; lia.
Defined.

Lemma time_index_continues_witness :
  exists evs,
    trace (snd run_2023) = trace fresh ++ evs /\
    scaler_fits evs = [feature_matrix hist_2023] /\
    map (fun pX => time_index_of (snd pX)) (scaler_transforms evs)
      = map (fun i => Some (of_int (len hist_2023 + i))) (py_range 1 (2 + 1)).
Proof.
  apply (proj2 (proj2 (time_index_continues hist_2023))
           (ask "2") sales_2023 fresh (fst (fst run_2023)) (snd run_2023) 2).
  - reflexivity.
  - reflexivity.
  - exact run_2023_answers_200.
Defined.



Lemma history_echoed_witness :
  list_field "historical_data" (fst (fst run_2023))
    = Some (map echo_entry hist_2023) /\
  List.length (map echo_entry hist_2023) = List.length sales_2023 /\
  exists info,
    dict_get "model_info" (fst (fst run_2023)) = Some info /\
    int_field "training_data_points" info = Some (len hist_2023).
Proof.
  apply (history_echoed (ask "2") sales_2023 hist_2023 fresh
           (fst (fst run_2023)) (snd run_2023)).
  - exact ref_calendar.
  - exact ref_float_exact.
  - reflexivity.
  - repeat constructor; simpl; lia.
  - exact run_2023_answers_200.
Defined.

(** The same horizon written as 2 and as 02, the same series delivered as
    numbers and as text, a fresh process and one that has served before. *)
Lemma same_inputs_same_response_witness :
  fst (predict_sales (ask "2") (inr sales_2023) fresh)
    = fst (predict_sales (ask "02") (inr sales_2023_as_text) (snd run_2023)).
Proof.
  apply (same_inputs_same_response (ask "2") (ask "02") (inr sales_2023)
           (inr sales_2023_as_text) fresh (snd run_2023)).
  - reflexivity.
  - reflexivity.
Defined.



End Scenario.

(** ** More of the code at work on the reference runtime *)

Module CoverageScenario.

Import Reference ReferenceFacts Scenario.

(** A bad total in the first row and a missing year in the last: the year
    is reported. *)
Lemma astype_frame_first_error_witness :
  astype_frame sales_two_bad_cells
    = inl "Cannot convert non-finite values (NA or inf) to integer".
Proof.
  apply (proj2 (astype_frame_first_error sales_two_bad_cells _)).
  left.
  exists (map raw_year (firstn 5 sales_two_bad_cells)), CNull, [].
  apply conj; [reflexivity | apply conj; [| reflexivity]].
  repeat constructor; eexists; reflexivity.
Defined.

(** [DATABASE_URL] unset, two months asked. *)
Lemma engine_failure_surfaces_witness :
  predict_sales_deployed string ref_create_engine ref_run_query None
    (ask "2") fresh
  = ((error_body "Expected string or URL object, got None", 500),
     add_stdout "Error in prediction: Expected string or URL object, got None"
       (add_event EvReadSql fresh)).
Proof.
  apply (proj2 (engine_failure_surfaces string ref_create_engine
                  ref_run_query None (ask "2") fresh 2 eq_refl)).
  - lia.
  - reflexivity.
Defined.

(** One month asked where two were answered. *)
Lemma shorter_horizon_is_prefix_witness :
  exists bodyk s2' predsH,
    predict_sales (ask "1") (inr sales_2023) fresh = ((bodyk, 200), s2') /\
    list_field "predictions" (fst (fst run_2023)) = Some predsH /\
    list_field "predictions" bodyk = Some (firstn (Z.to_nat 1) predsH) /\
    dict_get "historical_data" bodyk
      = dict_get "historical_data" (fst (fst run_2023)) /\
    dict_get "model_info" bodyk
      = dict_get "model_info" (fst (fst run_2023)).
Proof.
  apply (shorter_horizon_is_prefix (ask "2") (ask "1") sales_2023 fresh fresh
           (fst (fst run_2023)) (snd run_2023) 2 1).
  - reflexivity.
  - reflexivity.
  - lia.
  - exact run_2023_answers_200.
Defined.

Lemma forecast_entries_calendar_witness :
  exists preds,
    list_field "predictions" (fst (fst run_2023)) = Some preds /\
    Forall (fun v => exists y m,
              entry_year_month v = Some (y, m) /\
              (1000 <= y <= 9999 ->
               str_field "date" v = Some (iso_date y m 1) /\
               str_field "month_name" v = Some (month_name_of m))) preds.
Proof.
  apply (forecast_entries_calendar (ask "2") (inr sales_2023) fresh
           (fst (fst run_2023)) (snd run_2023) ref_calendar).
  exact run_2023_answers_200.
Defined.

Lemma forecast_within_next_year_witness :
  exists preds,
    list_field "predictions" (fst (fst run_2023)) = Some preds /\
    map entry_year_month preds
      = map (fun j => Some (step_months (last_year_month hist_2023) j))
            (py_range 1 (2 + 1)) /\
    Forall (fun v => exists y m,
              entry_year_month v = Some (y, m) /\ valid_month m /\
              fst (last_year_month hist_2023) <= y
                <= fst (last_year_month hist_2023) + 1)
           preds.
Proof.
  apply (forecast_within_next_year (ask "2") sales_2023 fresh
           (fst (fst run_2023)) (snd run_2023) 2 hist_2023).
  - reflexivity.
  - reflexivity.
  - unfold valid_month; simpl; lia.
  - exact run_2023_answers_200.
Defined.

Lemma regression_fitted_once_on_scaled_witness :
  exists raw df p Xs mdl projection,
    @inr exn _ sales_2023 = inr raw /\ astype_frame raw = inr df /\
    sk_scaler_fit (feature_matrix df) = inr p /\
    sk_scaler_transform p (feature_matrix df) = inr Xs /\
    sk_lr_fit Xs (map total_sales df) = inr mdl /\
    trace (snd run_2023)
      = trace fresh ++
        [EvReadSql; EvScalerFit (feature_matrix df);
         EvLrFit Xs (map total_sales df); EvLrPredict mdl Xs]
        ++ projection /\
    scaled_then_predicted p mdl projection /\
    filter is_regression_fit projection = [] /\
    model (snd run_2023) = Some mdl.
Proof.
  apply (regression_fitted_once_on_scaled (ask "2") (inr sales_2023) fresh
           (fst (fst run_2023)) (snd run_2023)).
  exact run_2023_answers_200.
Defined.

Lemma metrics_are_in_sample_witness :
  exists raw df p Xs mdl y_pred mse ratio info,
    @inr exn _ sales_2023 = inr raw /\ astype_frame raw = inr df /\
    sk_scaler_fit (feature_matrix df) = inr p /\
    sk_scaler_transform p (feature_matrix df) = inr Xs /\
    sk_lr_fit Xs (map total_sales df) = inr mdl /\
    sk_lr_predict mdl Xs = inr y_pred /\
    mean_squared_error (map total_sales df) y_pred = inr mse /\
    mean_absolute_percentage_error (map total_sales df) y_pred = inr ratio /\
    dict_get "model_info" (fst (fst run_2023)) = Some info /\
    float_field "mse" info = Some (py_round mse 2) /\
    float_field "mape" info = Some (py_round (fmul ratio (of_int 100)) 2) /\
    str_field "type" info = Some "Linear Regression".
Proof.
  apply (metrics_are_in_sample (ask "2") (inr sales_2023) fresh
           (fst (fst run_2023)) (snd run_2023)).
  exact run_2023_answers_200.
Defined.

Lemma run_after_gap_status : snd (fst run_after_gap) = 200.
Proof. vm_compute. reflexivity. Qed.

Lemma run_after_gap_answers_200 :
  predict_sales (ask "2") (inr sales_after_gap) fresh
    = ((fst (fst run_after_gap), 200), snd run_after_gap).
Proof.
  pose proof run_after_gap_status as Hstatus. unfold run_after_gap in *.
  destruct (predict_sales (ask "2") (inr sales_after_gap) fresh)
    as [[body st] s'].
  simpl in *. now subst st.
Qed.

(** The 2023 history and the one whose first rows are dated 2021. *)
Lemma forecast_ignores_earlier_years_witness :
  dict_get "predictions" (fst (fst run_2023))
    = dict_get "predictions" (fst (fst run_after_gap)) /\
  dict_get "model_info" (fst (fst run_2023))
    = dict_get "model_info" (fst (fst run_after_gap)).
Proof.
  apply (forecast_ignores_earlier_years (ask "2") sales_2023 sales_after_gap
           hist_2023 hist_after_gap fresh fresh
           (fst (fst run_2023)) (fst (fst run_after_gap))
           (snd run_2023) (snd run_after_gap)).
  - reflexivity.
  - reflexivity.
  - reflexivity.
  - reflexivity.
  - reflexivity.
  - exact run_2023_answers_200.
  - exact run_after_gap_answers_200.
Defined.

End CoverageScenario.
